(** * SensorFusion: the two Kalman filters of the gait-analysis tools

    A shallow embedding of [src/SensorFusion.py] (classes
    [kalman_filter_6dof] and [kalman_filter_velocity]) and the properties
    of its specification.

    Numbers.  The Python code computes on floats; the embedding computes
    in an arbitrary ordered field [F] (exact arithmetic), so the theorems
    are about the algebra the code performs, not about rounding.  Matrices
    are MathComp matrices over [F].  Three places where Python or numpy do
    something a field cannot express are written out:
    - a Python division by zero raises [ZeroDivisionError];
    - [np.linalg.inv] of a singular matrix raises [LinAlgError];
    - [np.mean] of an empty list is [nan].
    The library functions ([np.sin], [np.arctan2], scipy's
    [UnivariateSpline], ...) are parameters: every theorem holds whatever
    they compute. *)

From HB Require Import structures.
From mathcomp Require Import ssreflect ssrfun ssrbool eqtype ssrnat seq choice.
From mathcomp Require Import fintype bigop order ssralg ssrnum ssrint rat.
From mathcomp Require Import matrix mxalgebra.

Set Implicit Arguments.
Unset Strict Implicit.
Unset Printing Implicit Defensive.

Import GRing.Theory Num.Theory Order.POrderTheory Order.TotalTheory.
Local Open Scope ring_scope.

(** ** Exceptions, and the monad of a method call

    A method of a filter object reads and assigns the fields of [self] and
    may raise.  [M S A] is a computation on an object of type [S]: it
    returns the object as the call left it, also when the call raised. *)

Inductive exn : Type :=
  | ZeroDivisionError   (* Python: float division by zero *)
  | LinAlgError         (* numpy.linalg: singular matrix *)
  | IndexError          (* Python: list index out of range *)
  | SplineError         (* scipy: UnivariateSpline refused its input *)
  | NotANumber.         (* not an exception: numpy produced nan, and the
                           call goes on computing on nan; the field model
                           does not follow it there *)

Inductive result (A : Type) : Type :=
  | Ok (a : A)
  | Raise (e : exn).
Arguments Raise {A} e.

Definition M (S A : Type) : Type := S -> S * result A.

Definition ret {S A} (a : A) : M S A := fun s => (s, Ok a).
Definition raise {S A} (e : exn) : M S A := fun s => (s, Raise e).
Definition bind {S A B} (c : M S A) (k : A -> M S B) : M S B :=
  fun s => match c s with
           | (s', Ok a) => k a s'
           | (s', Raise e) => (s', Raise e)
           end.
Definition gets {S A} (f : S -> A) : M S A := fun s => (s, Ok (f s)).
Definition modify {S} (f : S -> S) : M S unit := fun s => (f s, Ok tt).
Definition lift {S A} (r : result A) : M S A := fun s => (s, r).

Notation "x <- c ;; k" := (bind c (fun x => k))
  (at level 61, c at next level, right associativity).
Notation "c ;;; k" := (bind c (fun _ => k))
  (at level 61, right associativity).

Definition is_ok {A} (r : result A) : bool :=
  if r is Ok _ then true else false.

(** [for i in idxs: acc = body(i, acc)] *)
Fixpoint for_each {S A} (idxs : seq nat) (acc : A) (body : nat -> A -> M S A)
  : M S A :=
  match idxs with
  | [::] => ret acc
  | i :: idxs' => acc' <- body i acc ;; for_each idxs' acc' body
  end.

(** ** Python and numpy primitives *)

Section Primitives.

Variable F : realFieldType.

(** A numpy float that may be nan. *)
Inductive npfloat : Type :=
  | Num (v : F)
  | NaN.

(** [a / b] on Python floats. *)
Definition py_div (a b : F) : result F :=
  if b == 0 then Raise ZeroDivisionError else Ok (a / b).

(** [l[i]] for [0 <= i]. *)
Definition getitem {A} (l : seq A) (i : nat) : result A :=
  if drop i l is a :: _ then Ok a else Raise IndexError.

(** [l[lo:hi]] for [0 <= lo <= hi]. *)
Definition slice {A} (lo hi : nat) (l : seq A) : seq A :=
  drop lo (take hi l).

(** [np.mean(l)]: the sum over the count; nan on the empty list. *)
Definition np_mean (l : seq F) : npfloat :=
  if l is [::] then NaN else Num ((\sum_(v <- l) v) / (size l)%:R).

(** [x - c] where [c] may be nan. *)
Definition np_sub (v : F) (c : npfloat) : npfloat :=
  if c is Num c' then Num (v - c') else NaN.

(** A value that the model follows only when it is a number. *)
Definition finite (v : npfloat) : result F :=
  if v is Num v' then Ok v' else Raise NotANumber.

(** [np.array(rows)] for a literal list of rows, of shape [(m, n)]. *)
Definition array2 (m n : nat) (rows : seq (seq F)) : 'M[F]_(m, n) :=
  \matrix_(i < m, j < n) nth 0 (nth [::] rows i) j.

(** [A[i][j]] on an array of shape [(m+1, n+1)]. *)
Definition entry (m n : nat) (A : 'M[F]_(m.+1, n.+1)) (i j : nat) : F :=
  A (inord i) (inord j).

(** [np.linalg.inv(S)] *)
Definition linalg_inv (n : nat) (S : 'M[F]_n) : result 'M[F]_n :=
  if S \in unitmx then Ok (invmx S) else Raise LinAlgError.

(** A Python list of three numbers ([gyroscope], [accelerometer]). *)
Definition vec3 : Type := (F * F * F)%type.
Definition item0 (v : vec3) : F := v.1.1.
Definition item1 (v : vec3) : F := v.1.2.
Definition item2 (v : vec3) : F := v.2.

(** The functions of numpy's math library that the filters call. *)
Record numpy : Type := Numpy {
  np_sin : F -> F;
  np_cos : F -> F;
  np_tan : F -> F;
  np_sqrt : F -> F;
  np_radians : F -> F;
  np_degrees : F -> F;
  np_arctan2 : F -> F -> F
}.

(** [scipy.interpolate.UnivariateSpline(x, y, s=s)]: the fitted curve, or
    [None] when scipy raises. *)
Definition spline_fit : Type :=
  seq F -> seq npfloat -> F -> option (F -> npfloat).

(** ** Symmetric and positive (semi-)definite matrices *)

Definition symmetric (n : nat) (A : 'M[F]_n) : Prop := A^T = A.

Definition quad (n : nat) (A : 'M[F]_n) (v : 'rV[F]_n) : F :=
  (v *m A *m v^T) 0 0.

Definition psd (n : nat) (A : 'M[F]_n) : Prop :=
  forall v : 'rV[F]_n, 0 <= quad A v.

Definition pd (n : nat) (A : 'M[F]_n) : Prop :=
  forall v : 'rV[F]_n, v != 0 -> 0 < quad A v.

(** A well-formed covariance, and well-formed noise matrices. *)
Definition covariance_ok (n : nat) (P : 'M[F]_n) : Prop :=
  symmetric P /\ psd P.

Definition noise_ok (n m : nat) (Q : 'M[F]_n) (R : 'M[F]_m) : Prop :=
  [/\ symmetric Q, psd Q, symmetric R & pd R].

(** The innovation covariance and the gain of the update equations. *)
Definition innovation_covariance (n m : nat) (P' : 'M[F]_n)
    (C : 'M[F]_(m, n)) (R : 'M[F]_m) : 'M[F]_m :=
  C *m P' *m C^T + R.

Definition kalman_gain (n m : nat) (P' : 'M[F]_n) (C : 'M[F]_(m, n))
    (R : 'M[F]_m) : 'M[F]_(n, m) :=
  P' *m C^T *m invmx (innovation_covariance P' C R).

(** ** The Kalman step as the specification words it (LinearKalmanStep)

    [None] is the specification's NumericalError: [S] is singular. *)


End Primitives.

Arguments NaN {F}.

(** No two consecutive timestamps are equal. *)
Definition steps_nonzero (F : realFieldType) (time_arr : seq F) : bool :=
  all (fun i => nth 0 time_arr i != nth 0 time_arr (i - 1))
      (iota 1 (size time_arr - 1)).

(** Every channel is at least as long as the time axis. *)
Definition channels_cover (F : realFieldType) (time_arr : seq F)
    (channels : seq (seq F)) : bool :=
  all (fun channel => size time_arr <= size channel)%N channels.

(** The library functions that the examples over the rationals run with;
    no statement depends on what they compute. *)
Definition np_rat : numpy rat :=
  Numpy id id id id id id (fun a _ => a).

Definition spline_rat : spline_fit rat :=
  fun _ _ _ => Some (fun _ => Num 1).

(** A dataset of 150 samples, one a second, of a sensor at rest. *)
Definition short_time : seq rat := [seq i%:R | i <- iota 0 150].
Definition at_rest : seq rat := nseq 150 0.
Definition gravity : seq rat := nseq 150 1.
Definition short_dataset : seq (seq rat) :=
  [:: short_time; at_rest; at_rest; at_rest; at_rest; at_rest; gravity].

(** ** class kalman_filter_6dof *)

Module kalman_filter_6dof.
Section Class.

Variable F : realFieldType.
Variable np : numpy F.
Variable UnivariateSpline : spline_fit F.

(** The fields of a filter object. *)
Record t : Type := Filter {
  x : 'cV[F]_4;
  P : 'M[F]_4;
  acc_x : seq F;
  acc_y : seq F;
  acc_z : seq F;
  Q : 'M[F]_4;
  R : 'M[F]_2;
  C : 'M[F]_(2, 4)
}.

Definition set_x (v : 'cV[F]_4) (s : t) : t :=
  Filter v (P s) (acc_x s) (acc_y s) (acc_z s) (Q s) (R s) (C s).
Definition set_P (v : 'M[F]_4) (s : t) : t :=
  Filter (x s) v (acc_x s) (acc_y s) (acc_z s) (Q s) (R s) (C s).
Definition set_acc_x (v : seq F) (s : t) : t :=
  Filter (x s) (P s) v (acc_y s) (acc_z s) (Q s) (R s) (C s).
Definition set_acc_y (v : seq F) (s : t) : t :=
  Filter (x s) (P s) (acc_x s) v (acc_z s) (Q s) (R s) (C s).
Definition set_acc_z (v : seq F) (s : t) : t :=
  Filter (x s) (P s) (acc_x s) (acc_y s) v (Q s) (R s) (C s).

(** [reset(self)] *)
Definition reset : M t unit :=
  modify (set_x (array2 1 4 [:: [:: 0; 0; 0; 0]])^T) ;;;
  modify (set_P (array2 4 4 [:: [:: 1; 0; 0; 0];
                                  [:: 0; 1; 0; 0];
                                  [:: 0; 0; 1; 0];
                                  [:: 0; 0; 0; 1]])) ;;;
  modify (set_acc_x [:: 0; 0]) ;;;
  modify (set_acc_y [:: 0; 0]) ;;;
  modify (set_acc_z [:: 0; 0]).

(** [__init__(self)]: the object a constructor call returns.  [reset]
    assigns the five changing fields, then the coefficient arrays are
    assigned. *)
Definition init : t :=
  let blank := Filter 0 0 [::] [::] [::] 0 0 0 in
  let s := (reset blank).1 in
  Filter (x s) (P s) (acc_x s) (acc_y s) (acc_z s)
    ((10 ^+ 6)^-1 *: array2 4 4 [:: [:: 1; 0; 0; 0];
                                    [:: 0; 1; 0; 0];
                                    [:: 0; 0; 1; 0];
                                    [:: 0; 0; 0; 1]])
    ((10 ^+ 3)^-1 *: array2 2 2 [:: [:: 1; 0];
                                      [:: 0; 10]])
    (array2 2 4 [:: [:: 1; 0; 0; 0];
                      [:: 0; 0; 1; 0]]).

(** [update(self, gyroscope, accelerometer, dt)] *)
Definition update (gyroscope accelerometer : vec3 F) (dt : F) : M t (F * F) :=
  modify (fun s => set_acc_x (rcons (acc_x s) (item0 accelerometer)) s) ;;;
  modify (fun s => set_acc_y (rcons (acc_y s) (item1 accelerometer)) s) ;;;
  modify (fun s => set_acc_z (rcons (acc_z s) (item2 accelerometer)) s) ;;;
  modify (fun s => set_acc_x (behead (acc_x s)) s) ;;;
  modify (fun s => set_acc_y (behead (acc_y s)) s) ;;;
  modify (fun s => set_acc_z (behead (acc_z s)) s) ;;;
  acc_x_mean <- (fun s => lift (finite (np_mean (acc_x s))) s) ;;
  acc_y_mean <- (fun s => lift (finite (np_mean (acc_y s))) s) ;;
  acc_z_mean <- (fun s => lift (finite (np_mean (acc_z s))) s) ;;
  let gyro_x := np_radians np (item0 gyroscope) in
  let gyro_y := np_radians np (item1 gyroscope) in
  let gyro_z := np_radians np (item2 gyroscope) in
  roll_current <- gets (fun s => entry (x s) 0 0) ;;
  pitch_current <- gets (fun s => entry (x s) 2 0) ;;
  let accel_roll :=
    np_arctan2 np acc_z_mean
      (np_sqrt np (acc_y_mean * acc_y_mean + acc_x_mean * acc_x_mean)) in
  let accel_pitch :=
    np_arctan2 np (- acc_x_mean)
      (np_sqrt np (acc_z_mean * acc_z_mean + acc_y_mean * acc_y_mean)) in
  let roll_dot :=
    gyro_x
    + np_sin np roll_current * np_tan np pitch_current * gyro_z
    + np_cos np roll_current * np_tan np pitch_current * gyro_y in
  let pitch_dot :=
    np_cos np roll_current * gyro_z - np_sin np roll_current * gyro_y in
  let A := array2 4 4 [:: [:: 1; - dt; 0; 0];
                            [:: 0; 1; 0; 0];
                            [:: 0; 0; 1; - dt];
                            [:: 0; 0; 0; 1]] in
  let B := array2 4 2 [:: [:: dt; 0];
                            [:: 0; 0];
                            [:: 0; dt];
                            [:: 0; 0]] in
  let measured_input := (array2 1 2 [:: [:: roll_dot; pitch_dot]])^T in
  let acceleration_estimates :=
    (array2 1 2 [:: [:: accel_roll; accel_pitch]])^T in
  x_new <- gets (fun s => A *m x s + B *m measured_input) ;;
  modify (fun s => set_P (A *m (P s *m A^T) + Q s) s) ;;;
  y_new <- gets (fun s => acceleration_estimates - C s *m x_new) ;;
  S <- gets (fun s => C s *m (P s *m (C s)^T) + R s) ;;
  S_inv <- lift (linalg_inv S) ;;
  K <- gets (fun s => P s *m ((C s)^T *m S_inv)) ;;
  let x_new := x_new + K *m y_new in
  modify (set_x x_new) ;;;
  modify (fun s => set_P ((1%:M - K *m C s) *m P s) s) ;;;
  gets (fun s => (np_degrees np (entry (x s) 0 0), np_degrees np (entry (x s) 2 0))).

(** [zero(self, arr)] *)
Definition zero (arr : seq F) : seq (npfloat F) :=
  let calib_val := np_mean (slice 100 200 arr) in
  [seq np_sub x calib_val | x <- arr].

(** [smooth(self, arr_to_smooth, time_arr, smooth_coeff=1)] *)
Definition smooth (arr_to_smooth : seq (npfloat F)) (time_arr : seq F)
    (smooth_coeff : F) : result (seq (npfloat F)) :=
  if UnivariateSpline time_arr arr_to_smooth smooth_coeff is Some smoothed_arr
  then Ok [seq smoothed_arr t | t <- time_arr]
  else Raise SplineError.

(** One turn of the loop of [analyze_dataset]. *)
Definition analyze_step (time_arr gy_x gy_y gy_z ac_x ac_y ac_z : seq F)
    (i : nat) (arrs : seq F * seq F) : M t (seq F * seq F) :=
  t_i <- lift (getitem time_arr i) ;;
  t_p <- lift (getitem time_arr (i - 1)) ;;
  let dt := t_i - t_p in
  gx <- lift (getitem gy_x i) ;;
  gy <- lift (getitem gy_y i) ;;
  gz <- lift (getitem gy_z i) ;;
  ax <- lift (getitem ac_x i) ;;
  ay <- lift (getitem ac_y i) ;;
  az <- lift (getitem ac_z i) ;;
  rp <- update (gx, gy, gz) (ax, ay, az) dt ;;
  ret (rcons arrs.1 rp.1, rcons arrs.2 rp.2).

(** [analyze_dataset(self, dataset)] *)
Definition analyze_dataset (dataset : seq (seq F))
  : M t (seq (npfloat F) * seq (npfloat F)) :=
  time_arr <- lift (getitem dataset 0) ;;
  gy_x <- lift (getitem dataset 1) ;;
  gy_y <- lift (getitem dataset 2) ;;
  gy_z <- lift (getitem dataset 3) ;;
  ac_x <- lift (getitem dataset 4) ;;
  ac_y <- lift (getitem dataset 5) ;;
  ac_z <- lift (getitem dataset 6) ;;
  reset ;;;
  let roll_arr := [:: 0] in
  let pitch_arr := [:: 0] in
  arrs <- for_each (iota 1 (size time_arr - 1)) (roll_arr, pitch_arr)
            (analyze_step time_arr gy_x gy_y gy_z ac_x ac_y ac_z) ;;
  let roll_arr := zero arrs.1 in
  let pitch_arr := zero arrs.2 in
  roll_arr <- lift (smooth roll_arr time_arr 1) ;;
  pitch_arr <- lift (smooth pitch_arr time_arr 1) ;;
  ret (roll_arr, pitch_arr).

(** *** Named parts of [update], for the statements *)

(** The object after the three [append] and three [pop(0)] that open
    [update]. *)
Definition push_history (accelerometer : vec3 F) (s : t) : t :=
  Filter (x s) (P s)
    (behead (rcons (acc_x s) (item0 accelerometer)))
    (behead (rcons (acc_y s) (item1 accelerometer)))
    (behead (rcons (acc_z s) (item2 accelerometer)))
    (Q s) (R s) (C s).

(** [acc_x_mean, acc_y_mean, acc_z_mean], when none of them is nan. *)
Definition accel_means (s : t) : option (F * F * F) :=
  match np_mean (acc_x s), np_mean (acc_y s), np_mean (acc_z s) with
  | Num mx, Num my, Num mz => Some (mx, my, mz)
  | _, _, _ => None
  end.

(** Every history list holds two readings. *)
Definition history_ok (s : t) : bool :=
  [&& size (acc_x s) == 2, size (acc_y s) == 2 & size (acc_z s) == 2]%N.

(** The arrays [A] and [B] of a step. *)
Definition transition (dt : F) : 'M[F]_4 :=
  array2 4 4 [:: [:: 1; - dt; 0; 0];
                 [:: 0; 1; 0; 0];
                 [:: 0; 0; 1; - dt];
                 [:: 0; 0; 0; 1]].

Definition control (dt : F) : 'M[F]_(4, 2) :=
  array2 4 2 [:: [:: dt; 0];
                 [:: 0; 0];
                 [:: 0; dt];
                 [:: 0; 0]].

(** [measured_input]: the Euler-angle rates from the gyroscope. *)
Definition control_input (s : t) (gyroscope : vec3 F) : 'cV[F]_2 :=
  let gyro_x := np_radians np (item0 gyroscope) in
  let gyro_y := np_radians np (item1 gyroscope) in
  let gyro_z := np_radians np (item2 gyroscope) in
  let roll_current := entry (x s) 0 0 in
  let pitch_current := entry (x s) 2 0 in
  (array2 1 2 [:: [::
     gyro_x
     + np_sin np roll_current * np_tan np pitch_current * gyro_z
     + np_cos np roll_current * np_tan np pitch_current * gyro_y;
     np_cos np roll_current * gyro_z - np_sin np roll_current * gyro_y]])^T.

(** [acceleration_estimates]: roll and pitch from the smoothed
    acceleration. *)
Definition measurement (means : F * F * F) : 'cV[F]_2 :=
  let: (acc_x_mean, acc_y_mean, acc_z_mean) := means in
  (array2 1 2 [:: [::
     np_arctan2 np acc_z_mean
       (np_sqrt np (acc_y_mean * acc_y_mean + acc_x_mean * acc_x_mean));
     np_arctan2 np (- acc_x_mean)
       (np_sqrt np (acc_z_mean * acc_z_mean + acc_y_mean * acc_y_mean))]])^T.

(** The innovation covariance [S] of a step taken from [s]. *)
Definition innovation_cov (s : t) (dt : F) : 'M[F]_2 :=
  let A := transition dt in
  C s *m ((A *m (P s *m A^T) + Q s) *m (C s)^T) + R s.

(** The Kalman pass of [analyze_dataset]: [reset], then the loop. *)
Definition kalman_pass (time_arr gy_x gy_y gy_z ac_x ac_y ac_z : seq F)
  : M t (seq F * seq F) :=
  reset ;;;
  for_each (iota 1 (size time_arr - 1)) ([:: 0], [:: 0])
    (analyze_step time_arr gy_x gy_y gy_z ac_x ac_y ac_z).

(** What the loop of [analyze_dataset] maintains when the noise matrices
    are well formed. *)
Definition loop_invariant (s : t) : Prop :=
  [/\ history_ok s, covariance_ok (P s) & noise_ok (Q s) (R s)].

(** The filter configuration: the fields no method assigns. *)
Definition config (s : t) : 'M[F]_4 * 'M[F]_2 * 'M[F]_(2, 4) :=
  (Q s, R s, C s).

(** The objects that calls of [reset] and [update] lead to, whatever the
    coefficient arrays were set to and whatever the calls raised. *)
Inductive reachable : t -> Prop :=
  | reach_reset s : reachable (reset s).1
  | reach_update gyroscope accelerometer dt s :
      reachable s -> reachable (update gyroscope accelerometer dt s).1.

End Class.

(** An object whose coefficient arrays were all set to zero, after it
    reached a zero covariance. *)
Definition degenerate : t rat :=
  Filter 0 0 [:: 0; 0] [:: 0; 0] [:: 0; 0] 0 0 0.

(** A constructed object whose measurement noise [R] was set to zero. *)
Definition noiseless : t rat :=
  let s := init rat in
  Filter (x s) (P s) (acc_x s) (acc_y s) (acc_z s) (Q s) 0 (C s).

End kalman_filter_6dof.

(** ** class kalman_filter_velocity *)

Module kalman_filter_velocity.
Section Class.

Variable F : realFieldType.
Variable np : numpy F.
Variable UnivariateSpline : spline_fit F.

(** The fields of a filter object. *)
Record t : Type := Filter {
  ac_x : seq F;
  ac_y : seq F;
  ac_z : seq F;
  x : 'cV[F]_2;
  P : 'M[F]_2;
  current_position : F;
  Q_coeff : F;
  Q : 'M[F]_2;
  R_coeff : F;
  R : 'M[F]_2;
  C : 'M[F]_2
}.

Definition set_ac_x (v : seq F) (s : t) : t :=
  Filter v (ac_y s) (ac_z s) (x s) (P s) (current_position s)
    (Q_coeff s) (Q s) (R_coeff s) (R s) (C s).
Definition set_ac_y (v : seq F) (s : t) : t :=
  Filter (ac_x s) v (ac_z s) (x s) (P s) (current_position s)
    (Q_coeff s) (Q s) (R_coeff s) (R s) (C s).
Definition set_ac_z (v : seq F) (s : t) : t :=
  Filter (ac_x s) (ac_y s) v (x s) (P s) (current_position s)
    (Q_coeff s) (Q s) (R_coeff s) (R s) (C s).
Definition set_x (v : 'cV[F]_2) (s : t) : t :=
  Filter (ac_x s) (ac_y s) (ac_z s) v (P s) (current_position s)
    (Q_coeff s) (Q s) (R_coeff s) (R s) (C s).
Definition set_P (v : 'M[F]_2) (s : t) : t :=
  Filter (ac_x s) (ac_y s) (ac_z s) (x s) v (current_position s)
    (Q_coeff s) (Q s) (R_coeff s) (R s) (C s).
Definition set_current_position (v : F) (s : t) : t :=
  Filter (ac_x s) (ac_y s) (ac_z s) (x s) (P s) v
    (Q_coeff s) (Q s) (R_coeff s) (R s) (C s).

(** [reset(self)] *)
Definition reset : M t unit :=
  modify (set_ac_x [:: 0; 0]) ;;;
  modify (set_ac_y [:: 0; 0]) ;;;
  modify (set_ac_z [:: 0; 0]) ;;;
  modify (set_x (array2 1 2 [:: [:: 0; 0]])^T) ;;;
  modify (set_P (array2 2 2 [:: [:: 1; 0];
                                [:: 0; 1]])) ;;;
  modify (set_current_position 0).

(** [__init__(self)]: the object a constructor call returns. *)
Definition init : t :=
  let blank := Filter [::] [::] [::] 0 0 0 0 0 0 0 0 in
  let s := (reset blank).1 in
  let Q_coeff := (10 ^+ 4)^-1 in
  let R_coeff := (10 ^+ 3)^-1 in
  Filter (ac_x s) (ac_y s) (ac_z s) (x s) (P s) (current_position s)
    Q_coeff
    (Q_coeff *: array2 2 2 [:: [:: 1; 0];
                               [:: 0; 1]])
    R_coeff
    (R_coeff *: array2 2 2 [:: [:: 1; 0];
                               [:: 0; 10]])
    (array2 2 2 [:: [:: 1; 0];
                    [:: 0; 1]]).

(** [update(self, accelerometer, pitch, position, dt)].  [estimates] has
    shape (1, 1) and [C.dot(x_new)] shape (2, 1): numpy broadcasts the
    subtraction, so both components of [y_new] are measured against
    [speed_from_position] ([const_mx]). *)
Definition update (accelerometer : vec3 F) (pitch position dt : F) : M t F :=
  modify (fun s => set_ac_x (rcons (ac_x s) (item0 accelerometer)) s) ;;;
  modify (fun s => set_ac_y (rcons (ac_y s) (item0 accelerometer)) s) ;;;
  modify (fun s => set_ac_z (rcons (ac_z s) (item0 accelerometer)) s) ;;;
  modify (fun s => set_ac_x (behead (ac_x s)) s) ;;;
  modify (fun s => set_ac_y (behead (ac_y s)) s) ;;;
  modify (fun s => set_ac_z (behead (ac_z s)) s) ;;;
  ac_x_mean <- (fun s => lift (finite (np_mean (ac_x s))) s) ;;
  ac_y_mean <- (fun s => lift (finite (np_mean (ac_y s))) s) ;;
  ac_z_mean <- (fun s => lift (finite (np_mean (ac_z s))) s) ;;
  let ac_forward := ac_x_mean * np_cos np (np_radians np pitch) in
  speed_from_position <-
    (fun s => lift (py_div (position - current_position s) dt) s) ;;
  modify (set_current_position position) ;;;
  let A := array2 2 2 [:: [:: 1; dt];
                          [:: 0; 1]] in
  let B := array2 2 1 [:: [:: - (dt ^+ 2) / 2];
                          [:: dt]] in
  let measured_input := (array2 1 1 [:: [:: ac_forward]])^T in
  let estimates := (array2 1 1 [:: [:: speed_from_position]])^T in
  x_new <- gets (fun s => A *m x s + B *m measured_input) ;;
  modify (fun s => set_P (A *m (P s *m A^T) + Q s) s) ;;;
  y_new <- gets (fun s => const_mx (estimates 0 0) - C s *m x_new) ;;
  S <- gets (fun s => C s *m (P s *m (C s)^T) + R s) ;;
  S_inv <- lift (linalg_inv S) ;;
  K <- gets (fun s => P s *m ((C s)^T *m S_inv)) ;;
  let x_new := x_new + K *m y_new in
  modify (set_x x_new) ;;;
  modify (fun s => set_P ((1%:M - K *m C s) *m P s) s) ;;;
  gets (fun s => entry (x s) 1 0).

(** One turn of the loop of [analyze_dataset]. *)
Definition analyze_step (time_arr ac_x ac_y ac_z pitch position : seq F)
    (i : nat) (speed_arr : seq F) : M t (seq F) :=
  t_i <- lift (getitem time_arr i) ;;
  t_p <- lift (getitem time_arr (i - 1)) ;;
  let dt := t_i - t_p in
  ax <- lift (getitem ac_x i) ;;
  ay <- lift (getitem ac_y i) ;;
  az <- lift (getitem ac_z i) ;;
  p <- lift (getitem pitch i) ;;
  pos <- lift (getitem position i) ;;
  speed <- update (ax, ay, az) p pos dt ;;
  ret (rcons speed_arr speed).

(** [analyze_dataset(self, dataset)] *)
Definition analyze_dataset (dataset : seq (seq F)) : M t (seq F) :=
  time_arr <- lift (getitem dataset 0) ;;
  ac_x <- lift (getitem dataset 1) ;;
  ac_y <- lift (getitem dataset 2) ;;
  ac_z <- lift (getitem dataset 3) ;;
  pitch <- lift (getitem dataset 4) ;;
  position <- lift (getitem dataset 5) ;;
  reset ;;;
  let speed_arr := [:: 0] in
  for_each (iota 1 (size time_arr - 1)) speed_arr
    (analyze_step time_arr ac_x ac_y ac_z pitch position).

(** [smooth(self, arr_to_smooth, time_arr, smooth_coeff=1)] *)
Definition smooth (arr_to_smooth : seq (npfloat F)) (time_arr : seq F)
    (smooth_coeff : F) : result (seq (npfloat F)) :=
  if UnivariateSpline time_arr arr_to_smooth smooth_coeff is Some smoothed_arr
  then Ok [seq smoothed_arr t | t <- time_arr]
  else Raise SplineError.

(** *** Named parts of [update], for the statements *)

(** The object after the three [append] and three [pop(0)] that open
    [update]: all three lists receive [accelerometer[0]]. *)
Definition push_history (accelerometer : vec3 F) (s : t) : t :=
  Filter
    (behead (rcons (ac_x s) (item0 accelerometer)))
    (behead (rcons (ac_y s) (item0 accelerometer)))
    (behead (rcons (ac_z s) (item0 accelerometer)))
    (x s) (P s) (current_position s)
    (Q_coeff s) (Q s) (R_coeff s) (R s) (C s).

(** [ac_x_mean, ac_y_mean, ac_z_mean], when none of them is nan. *)
Definition accel_means (s : t) : option (F * F * F) :=
  match np_mean (ac_x s), np_mean (ac_y s), np_mean (ac_z s) with
  | Num mx, Num my, Num mz => Some (mx, my, mz)
  | _, _, _ => None
  end.

(** Every history list holds two readings. *)
Definition history_ok (s : t) : bool :=
  [&& size (ac_x s) == 2, size (ac_y s) == 2 & size (ac_z s) == 2]%N.

(** The arrays [A] and [B] of a step. *)
Definition transition (dt : F) : 'M[F]_2 :=
  array2 2 2 [:: [:: 1; dt];
                 [:: 0; 1]].

Definition control (dt : F) : 'M[F]_(2, 1) :=
  array2 2 1 [:: [:: - (dt ^+ 2) / 2];
                 [:: dt]].

(** [measured_input]: the forward acceleration. *)
Definition control_input (means : F * F * F) (pitch : F) : 'cV[F]_1 :=
  let: (ac_x_mean, _, _) := means in
  (array2 1 1 [:: [:: ac_x_mean * np_cos np (np_radians np pitch)]])^T.

(** [estimates], broadcast to the two rows of [C.dot(x_new)]. *)
Definition measurement (s : t) (position dt : F) : 'cV[F]_2 :=
  const_mx ((position - current_position s) / dt).

(** The innovation covariance [S] of a step taken from [s]. *)
Definition innovation_cov (s : t) (dt : F) : 'M[F]_2 :=
  let A := transition dt in
  C s *m ((A *m (P s *m A^T) + Q s) *m (C s)^T) + R s.

(** The Kalman pass of [analyze_dataset]: [reset], then the loop. *)
Definition kalman_pass (time_arr ac_x ac_y ac_z pitch position : seq F)
  : M t (seq F) :=
  reset ;;;
  for_each (iota 1 (size time_arr - 1)) [:: 0]
    (analyze_step time_arr ac_x ac_y ac_z pitch position).

(** What the loop of [analyze_dataset] maintains when the noise matrices
    are well formed. *)
Definition loop_invariant (s : t) : Prop :=
  [/\ history_ok s, covariance_ok (P s) & noise_ok (Q s) (R s)].

(** The filter configuration: the fields no method assigns. *)
Definition config (s : t) : F * 'M[F]_2 * F * 'M[F]_2 * 'M[F]_2 :=
  (Q_coeff s, Q s, R_coeff s, R s, C s).

(** The objects that calls of [reset] and [update] lead to, whatever the
    coefficient arrays were set to and whatever the calls raised. *)
Inductive reachable : t -> Prop :=
  | reach_reset s : reachable (reset s).1
  | reach_update accelerometer pitch position dt s :
      reachable s -> reachable (update accelerometer pitch position dt s).1.

End Class.

(** An object whose coefficient arrays were all set to zero, after it
    reached a zero covariance. *)
Definition degenerate : t rat :=
  Filter [:: 0; 0] [:: 0; 0] [:: 0; 0] 0 0 0 0 0 0 0 0.

(** A constructed object whose measurement noise [R] was set to zero. *)
Definition noiseless : t rat :=
  let s := init rat in
  Filter (ac_x s) (ac_y s) (ac_z s) (x s) (P s) (current_position s)
    (Q_coeff s) (Q s) (R_coeff s) 0 (C s).

End kalman_filter_velocity.

(** * Properties *)

(** ** The monad, one call at a time *)

Section MonadLaws.

Variables S A B : Type.

Lemma bindE_modify (f : S -> S) (k : unit -> M S B) (st : S) :
  bind (modify f) k st = k tt (f st).
Proof. by []. Qed.

Lemma bindE_gets (f : S -> A) (k : A -> M S B) (st : S) :
  bind (gets f) k st = k (f st) st.
Proof. by []. Qed.

Lemma bindE_lift (g : S -> result A) (k : A -> M S B) (st : S) :
  bind (fun st' => lift (g st') st') k st =
    match g st with Ok a => k a st | Raise e => (st, Raise e) end.
Proof. by rewrite /bind /lift; case: (g st). Qed.

Lemma bindE_lift0 (r : result A) (k : A -> M S B) (st : S) :
  bind (lift r) k st =
    match r with Ok a => k a st | Raise e => (st, Raise e) end.
Proof. by rewrite /bind /lift; case: r. Qed.

Lemma bindE_ret (a : A) (k : A -> M S B) (st : S) :
  bind (ret a) k st = k a st.
Proof. by []. Qed.

(** A loop keeps what each turn keeps. *)
Lemma for_each_keeps (X : Type) (f : S -> X) (body : nat -> A -> M S A) :
  (forall i acc st, f (body i acc st).1 = f st) ->
  forall idxs acc st, f (for_each idxs acc body st).1 = f st.
Proof.
move=> keep; elim=> [|i idxs IH] acc st //=.
rewrite /bind; case E: (body i acc st) => [st' [acc'|e]] /=.
  by rewrite IH -(keep i acc st) E.
by rewrite -(keep i acc st) E.
Qed.

(** A loop that returns has run every turn. *)
Lemma for_each_size (sz : A -> nat) (body : nat -> A -> M S A) :
  (forall i acc st st' acc',
     body i acc st = (st', Ok acc') -> sz acc' = (sz acc).+1) ->
  forall idxs acc st st' acc',
    for_each idxs acc body st = (st', Ok acc') ->
    sz acc' = (sz acc + size idxs)%N.
Proof.
move=> step; elim=> [|i idxs IH] acc st st' acc' /=.
  by case=> _ <-; rewrite addn0.
rewrite /bind; case E: (body i acc st) => [st1 [acc1|e]] //.
by move/IH; rewrite (step _ _ _ _ _ E) addSnnS.
Qed.

(** A loop whose turns return under an invariant returns. *)
Lemma for_each_ok (I : S -> Prop) (idxs : seq nat)
    (body : nat -> A -> M S A) :
  (forall i acc st, i \in idxs -> I st ->
     exists st' acc', body i acc st = (st', Ok acc') /\ I st') ->
  forall acc st, I st ->
    exists st' acc', for_each idxs acc body st = (st', Ok acc') /\ I st'.
Proof.
elim: idxs => [|i idxs IH] turn acc st inv /=; first by exists st, acc.
have [|st1 [acc1 [E inv1]]] := turn i acc st _ inv.
  by rewrite mem_head.
rewrite /bind E; apply: IH => // j acc2 st2 jin.
by apply: turn; rewrite in_cons jin orbT.
Qed.

End MonadLaws.

Lemma getitem_nth (T : Type) (x0 : T) (l : seq T) (i : nat) :
  (i < size l)%N -> getitem l i = Ok (nth x0 l i).
Proof. by move=> lt; rewrite /getitem (drop_nth x0 lt). Qed.

(** ** Algebra: quadratic forms, congruence, the Joseph form *)

Section LinearAlgebra.

Variable F : realFieldType.

Lemma quadD n (A B : 'M[F]_n) v : quad (A + B) v = quad A v + quad B v.
Proof. by rewrite /quad mulmxDr mulmxDl mxE. Qed.

Lemma quad_congr m n (A : 'M[F]_n) (B : 'M[F]_(m, n)) v :
  quad (B *m A *m B^T) v = quad A (v *m B).
Proof. by rewrite /quad trmx_mul !mulmxA. Qed.

Lemma quad0 n (A : 'M[F]_n) : quad A 0 = 0.
Proof. by rewrite /quad !mul0mx mxE. Qed.

Lemma psdD n (A B : 'M[F]_n) : psd A -> psd B -> psd (A + B).
Proof. by move=> hA hB v; rewrite quadD addr_ge0. Qed.

Lemma pdD n (A B : 'M[F]_n) : psd A -> pd B -> pd (A + B).
Proof.
move=> hA hB v vN0; rewrite quadD.
by apply: (le_lt_trans (hA v)); rewrite ltrDl hB.
Qed.

Lemma psd_congr m n (A : 'M[F]_n) (B : 'M[F]_(m, n)) :
  psd A -> psd (B *m A *m B^T).
Proof. by move=> hA v; rewrite quad_congr. Qed.

Lemma pd_psd n (A : 'M[F]_n) : pd A -> psd A.
Proof.
move=> hA v; have [->|vN0] := eqVneq v 0; first by rewrite quad0.
exact: ltW (hA v vN0).
Qed.

Lemma symD n (A B : 'M[F]_n) :
  symmetric A -> symmetric B -> symmetric (A + B).
Proof. by rewrite /symmetric => hA hB; rewrite linearD /= hA hB. Qed.

Lemma sym_congr m n (A : 'M[F]_n) (B : 'M[F]_(m, n)) :
  symmetric A -> symmetric (B *m A *m B^T).
Proof.
by rewrite /symmetric => hA; rewrite !trmx_mul trmxK hA mulmxA.
Qed.

(** The identity and the scaled diagonal arrays of the constructors. *)
Lemma psd1 n : psd (1%:M : 'M[F]_n).
Proof.
move=> v; rewrite /quad mulmx1 mxE.
by apply: sumr_ge0 => i _; rewrite mxE -expr2 sqr_ge0.
Qed.

Lemma sym1 n : symmetric (1%:M : 'M[F]_n).
Proof. exact: trmx1. Qed.

Lemma quad_diag n (d : 'rV[F]_n) v :
  quad (diag_mx d) v = \sum_j d 0 j * v 0 j ^+ 2.
Proof.
rewrite /quad mul_mx_diag mxE; apply: eq_bigr => j _.
by rewrite !mxE expr2 mulrA [v 0 j * _]mulrC.
Qed.

Lemma pd_diag n (d : 'rV[F]_n) : (forall j, 0 < d 0 j) -> pd (diag_mx d).
Proof.
move=> dpos v /rV0Pn [k vk]; rewrite quad_diag.
have ge0 j : 0 <= d 0 j * v 0 j ^+ 2.
  by rewrite mulr_ge0 ?sqr_ge0 // ltW.
rewrite lt_neqAle sumr_ge0 // andbT eq_sym psumr_eq0 //.
apply/allPn; exists k; first by rewrite mem_index_enum.
by rewrite /= mulf_neq0 ?expf_neq0 // gt_eqF.
Qed.

Lemma sym_diag n (d : 'rV[F]_n) : symmetric (diag_mx d).
Proof. exact: tr_diag_mx. Qed.

(** A positive definite matrix is invertible. *)
Lemma pd_unitmx n (A : 'M[F]_n) : pd A -> A \in unitmx.
Proof.
move=> hA; rewrite -row_free_unit -kermx_eq0; apply/negPn/negP.
move=> /rowV0Pn [v /submxP [w vE] vN0].
have vA : v *m A = 0 by rewrite vE -mulmxA mulmx_ker mulmx0.
by have := hA v vN0; rewrite /quad vA mul0mx mxE ltxx.
Qed.

Section Joseph.

Variables (n m : nat).
Variables (P' : 'M[F]_n) (C : 'M[F]_(m, n)) (R : 'M[F]_m).

Local Notation S := (innovation_covariance P' C R).
Local Notation K := (kalman_gain P' C R).

(** [(I - K C) P'] is the Joseph form when [K] is the Kalman gain. *)
Lemma joseph_form :
  S \in unitmx ->
  (1%:M - K *m C) *m P' =
    (1%:M - K *m C) *m P' *m (1%:M - K *m C)^T + K *m R *m K^T.
Proof.
move=> Su.
have KS : K *m S = P' *m C^T by rewrite /kalman_gain mulmxKV.
have KR : (1%:M - K *m C) *m P' *m C^T = K *m R.
  rewrite mulmxBl mul1mx mulmxBl -KS /innovation_covariance.
  rewrite -/(kalman_gain P' C R) mulmxDr !mulmxA.
  by rewrite addrC addKr.
rewrite [in RHS]linearB /= trmx1 trmx_mul mulmxBr mulmx1.
by rewrite !mulmxA KR addrNK.
Qed.

Lemma sym_gain_update :
  S \in unitmx -> symmetric P' -> symmetric R ->
  symmetric ((1%:M - K *m C) *m P').
Proof.
move=> Su hP hR; rewrite joseph_form //.
by apply: symD; apply: sym_congr.
Qed.

Lemma psd_gain_update :
  S \in unitmx -> psd P' -> psd R -> psd ((1%:M - K *m C) *m P').
Proof.
move=> Su hP hR; rewrite joseph_form //.
by apply: psdD; apply: psd_congr.
Qed.

Lemma innovation_unitmx : psd P' -> pd R -> S \in unitmx.
Proof.
move=> hP hR; rewrite /innovation_covariance.
by apply/pd_unitmx/pdD => //; apply: psd_congr.
Qed.

End Joseph.

(** One predict/update cycle on the covariance, grouped as the code
    groups it. *)
Lemma kalman_covariance_ok n m (P0 A Q0 : 'M[F]_n) (C0 : 'M[F]_(m, n))
    (R0 : 'M[F]_m) :
  covariance_ok P0 -> noise_ok Q0 R0 ->
  let P1 := A *m (P0 *m A^T) + Q0 in
  let S := C0 *m (P1 *m C0^T) + R0 in
  let K := P1 *m (C0^T *m invmx S) in
  [/\ covariance_ok P1, S \in unitmx & covariance_ok ((1%:M - K *m C0) *m P1)].
Proof.
move=> [symP psdP] [symQ psdQ symR pdR] P1 S K.
have okP1 : covariance_ok P1.
  rewrite /P1 mulmxA; split; first exact/symD/symQ/sym_congr.
  exact/psdD/psdQ/psd_congr.
have Su : S \in unitmx.
  by rewrite /S mulmxA; apply: innovation_unitmx => //; case: okP1.
split=> //; rewrite /K mulmxA; move: Su; rewrite /S mulmxA => Su.
case: okP1 => symP1 psdP1; split.
  exact: (sym_gain_update Su).
exact: (psd_gain_update Su psdP1 (pd_psd pdR)).
Qed.

(** Scaling, and the array literals of the constructors. *)
Lemma quadZ n (c : F) (A : 'M[F]_n) v : quad (c *: A) v = c * quad A v.
Proof. by rewrite /quad -scalemxAr -scalemxAl mxE. Qed.

Lemma psdZ n (c : F) (A : 'M[F]_n) : 0 <= c -> psd A -> psd (c *: A).
Proof. by move=> c0 hA v; rewrite quadZ mulr_ge0. Qed.

Lemma pdZ n (c : F) (A : 'M[F]_n) : 0 < c -> pd A -> pd (c *: A).
Proof. by move=> c0 hA v vN0; rewrite quadZ mulr_gt0 // hA. Qed.

Lemma symZ n (c : F) (A : 'M[F]_n) : symmetric A -> symmetric (c *: A).
Proof. by rewrite /symmetric => hA; rewrite linearZ /= hA. Qed.

Lemma array_eye4 :
  array2 4 4 [:: [:: 1; 0; 0; 0]; [:: 0; 1; 0; 0];
                 [:: 0; 0; 1; 0]; [:: 0; 0; 0; 1]] = 1%:M :> 'M[F]_4.
Proof.
apply/matrixP=> i j; rewrite !mxE.
by case: i => [[|[|[|[|i]]]] ?] //; case: j => [[|[|[|[|j]]]] ?].
Qed.

Lemma array_eye2 :
  array2 2 2 [:: [:: 1; 0]; [:: 0; 1]] = 1%:M :> 'M[F]_2.
Proof.
apply/matrixP=> i j; rewrite !mxE.
by case: i => [[|[|i]] ?] //; case: j => [[|[|j]] ?].
Qed.

Lemma array_diag2 (a b : F) :
  array2 2 2 [:: [:: a; 0]; [:: 0; b]] = diag_mx (array2 1 2 [:: [:: a; b]]).
Proof.
apply/matrixP=> i j; rewrite !mxE.
by case: i => [[|[|i]] ?] //; case: j => [[|[|j]] ?] //=; rewrite ?mulr0n ?mulr1n.
Qed.

Lemma pd_array_diag2 (a b : F) :
  0 < a -> 0 < b -> pd (array2 2 2 [:: [:: a; 0]; [:: 0; b]]).
Proof.
move=> a0 b0; rewrite array_diag2; apply: pd_diag => j; rewrite mxE.
by case: j => [[|[|j]] ?].
Qed.

Lemma sym_array_diag2 (a b : F) :
  symmetric (array2 2 2 [:: [:: a; 0]; [:: 0; b]]).
Proof. by rewrite array_diag2; apply: sym_diag. Qed.

(** Lists of two readings. *)
Lemma np_mean2 (a b : F) : np_mean [:: a; b] = Num ((a + b) / 2).
Proof. by rewrite /np_mean big_cons big_seq1. Qed.

Lemma push2 (l : seq F) (a : F) :
  size l == 2%N -> behead (rcons l a) = [:: nth 0 l 1; a].
Proof. by case: l => [|p [|q [|c l]]]. Qed.

End LinearAlgebra.

(** ** The orientation filter, step by step *)

Section OrientationStep.

Import kalman_filter_6dof.

Variable F : realFieldType.
Variable np : numpy F.

Implicit Types (s : t F) (gyroscope accelerometer : vec3 F) (dt : F).

(** [update], unfolded into its outcomes. *)
Lemma update6E s gyroscope accelerometer dt :
  update np gyroscope accelerometer dt s =
    let s1 := push_history accelerometer s in
    match accel_means s1 with
    | None => (s1, Raise NotANumber)
    | Some means =>
      let A := transition dt in
      let x1 := A *m x s + control dt *m control_input np s gyroscope in
      let P1 := A *m (P s *m A^T) + Q s in
      let S := innovation_cov s dt in
      if S \in unitmx then
        let K := P1 *m ((C s)^T *m invmx S) in
        let x2 := x1 + K *m (measurement np means - C s *m x1) in
        (set_P ((1%:M - K *m C s) *m P1) (set_x x2 s1),
         Ok (np_degrees np (entry x2 0 0), np_degrees np (entry x2 2 0)))
      else (set_P P1 s1, Raise LinAlgError)
    end.
Proof.
rewrite /update /accel_means /bind /modify /gets /lift /finite /=.
rewrite -/(push_history accelerometer s).
case: (np_mean _) => [mx|] //=; case: (np_mean _) => [my|] //=.
case: (np_mean _) => [mz|] //=.
by rewrite /linalg_inv /innovation_cov /=; case: ifP.
Qed.

Lemma reset6P s :
  (reset s).1 =
    Filter (array2 1 4 [:: [:: 0; 0; 0; 0]])^T
           (array2 4 4 [:: [:: 1; 0; 0; 0]; [:: 0; 1; 0; 0];
                           [:: 0; 0; 1; 0]; [:: 0; 0; 0; 1]])
           [:: 0; 0] [:: 0; 0] [:: 0; 0] (Q s) (R s) (C s).
Proof. by []. Qed.

Lemma history_ok_reset6 s : history_ok (reset s).1.
Proof. by []. Qed.

(** The lists an [update] leaves, whatever its outcome. *)
Lemma update6_history s gyroscope accelerometer dt :
  let s' := (update np gyroscope accelerometer dt s).1 in
  [/\ acc_x s' = behead (rcons (acc_x s) (item0 accelerometer)),
       acc_y s' = behead (rcons (acc_y s) (item1 accelerometer))
     & acc_z s' = behead (rcons (acc_z s) (item2 accelerometer))].
Proof.
rewrite update6E /=; case: accel_means => [means|] //=.
by case: ifP.
Qed.

Lemma history_ok_update6 s gyroscope accelerometer dt :
  history_ok s -> history_ok (update np gyroscope accelerometer dt s).1.
Proof.
case/and3P=> hx hy hz.
have [ex ey ez] := update6_history s gyroscope accelerometer dt.
by rewrite /history_ok ex ey ez !push2.
Qed.

Lemma reachable_history_ok6 s : reachable np s -> history_ok s.
Proof.
elim=> [s0|gyroscope accelerometer dt s0 _]; first exact: history_ok_reset6.
exact: history_ok_update6.
Qed.

Lemma accel_means_push6 s accelerometer :
  history_ok s ->
  accel_means (push_history accelerometer s) =
    Some ((nth 0 (acc_x s) 1 + item0 accelerometer) / 2,
          (nth 0 (acc_y s) 1 + item1 accelerometer) / 2,
          (nth 0 (acc_z s) 1 + item2 accelerometer) / 2).
Proof.
by case/and3P=> hx hy hz; rewrite /accel_means /= !push2 // !np_mean2.
Qed.

Lemma config_update6 s gyroscope accelerometer dt :
  config (update np gyroscope accelerometer dt s).1 = config s.
Proof.
rewrite update6E /=; case: accel_means => [means|] //=.
by case: ifP.
Qed.

End OrientationStep.

(** ** The velocity filter, step by step *)

Section VelocityStep.

Import kalman_filter_velocity.

Variable F : realFieldType.
Variable np : numpy F.

Implicit Types (s : t F) (accelerometer : vec3 F) (pitch position dt : F).

(** [update], unfolded into its outcomes. *)
Lemma updateVE s accelerometer pitch position dt :
  update np accelerometer pitch position dt s =
    let s1 := push_history accelerometer s in
    match accel_means s1 with
    | None => (s1, Raise NotANumber)
    | Some means =>
      if dt == 0 then (s1, Raise ZeroDivisionError) else
      let s2 := set_current_position position s1 in
      let A := transition dt in
      let x1 := A *m x s + control dt *m control_input np means pitch in
      let P1 := A *m (P s *m A^T) + Q s in
      let S := innovation_cov s dt in
      if S \in unitmx then
        let K := P1 *m ((C s)^T *m invmx S) in
        let x2 := x1 + K *m (measurement s position dt - C s *m x1) in
        (set_P ((1%:M - K *m C s) *m P1) (set_x x2 s2), Ok (entry x2 1 0))
      else (set_P P1 s2, Raise LinAlgError)
    end.
Proof.
case: s => ax ay az x0 P0 cp qc q rc r c.
rewrite /update /accel_means.
do 6![rewrite bindE_modify /=].
rewrite bindE_lift /=; case: (np_mean _) => [mx|] //=.
rewrite bindE_lift /=; case: (np_mean _) => [my|] //=.
rewrite bindE_lift /=; case: (np_mean _) => [mz|] //=.
rewrite bindE_lift /py_div /=; case: ifP => [//|_] /=.
rewrite bindE_modify /= bindE_gets /= bindE_modify /= !bindE_gets /=.
rewrite bindE_lift0 /linalg_inv /innovation_cov /measurement /=.
have -> : (array2 1 1 [:: [:: (position - cp) / dt]])^T 0 0
          = (position - cp) / dt by rewrite !mxE.
by case: ifP.
Qed.

Lemma resetVP s :
  (reset s).1 =
    Filter [:: 0; 0] [:: 0; 0] [:: 0; 0]
           (array2 1 2 [:: [:: 0; 0]])^T
           (array2 2 2 [:: [:: 1; 0]; [:: 0; 1]]) 0
           (Q_coeff s) (Q s) (R_coeff s) (R s) (C s).
Proof. by []. Qed.

Lemma history_ok_resetV s : history_ok (reset s).1.
Proof. by []. Qed.

(** The lists an [update] leaves, whatever its outcome. *)
Lemma updateV_history s accelerometer pitch position dt :
  let s' := (update np accelerometer pitch position dt s).1 in
  [/\ ac_x s' = behead (rcons (ac_x s) (item0 accelerometer)),
       ac_y s' = behead (rcons (ac_y s) (item0 accelerometer))
     & ac_z s' = behead (rcons (ac_z s) (item0 accelerometer))].
Proof.
rewrite updateVE /=; case: accel_means => [means|] //=.
by case: ifP => // _; case: ifP.
Qed.

Lemma history_ok_updateV s accelerometer pitch position dt :
  history_ok s ->
  history_ok (update np accelerometer pitch position dt s).1.
Proof.
case/and3P=> hx hy hz.
have [ex ey ez] := updateV_history s accelerometer pitch position dt.
by rewrite /history_ok ex ey ez !push2.
Qed.

Lemma reachable_history_okV s : reachable np s -> history_ok s.
Proof.
elim=> [s0|accelerometer pitch position dt s0 _].
  exact: history_ok_resetV.
exact: history_ok_updateV.
Qed.

Lemma accel_means_pushV s accelerometer :
  history_ok s ->
  accel_means (push_history accelerometer s) =
    Some ((nth 0 (ac_x s) 1 + item0 accelerometer) / 2,
          (nth 0 (ac_y s) 1 + item0 accelerometer) / 2,
          (nth 0 (ac_z s) 1 + item0 accelerometer) / 2).
Proof.
by case/and3P=> hx hy hz; rewrite /accel_means /= !push2 // !np_mean2.
Qed.

Lemma config_updateV s accelerometer pitch position dt :
  config (update np accelerometer pitch position dt s).1 = config s.
Proof.
rewrite updateVE /=; case: accel_means => [means|] //=.
by case: ifP => // _; case: ifP.
Qed.

Lemma updateV_position s accelerometer pitch position dt :
  let: (s', r) := update np accelerometer pitch position dt s in
  is_ok r -> current_position s' = position.
Proof.
rewrite updateVE /=; case: accel_means => [means|] //.
by case: ifP => // _; case: ifP.
Qed.

End VelocityStep.

(** ** The Kalman equations *)

Section KalmanEquations.

Variable F : realFieldType.
Variable np : numpy F.



End KalmanEquations.

(** ** The covariance invariant *)

Section Covariance.

Variable F : realFieldType.
Variable np : numpy F.

Lemma noise_ok_init6 :
  noise_ok (kalman_filter_6dof.Q (kalman_filter_6dof.init F))
           (kalman_filter_6dof.R (kalman_filter_6dof.init F)).
Proof.
have pos k : 0 < (10 ^+ k)^-1 :> F by rewrite invr_gt0 exprn_gt0.
split; rewrite /= ?array_eye4.
- exact/symZ/sym1.
- exact/psdZ/psd1/ltW.
- exact/symZ/sym_array_diag2.
- exact/pdZ/pd_array_diag2.
Qed.

Lemma noise_ok_initV :
  noise_ok (kalman_filter_velocity.Q (kalman_filter_velocity.init F))
           (kalman_filter_velocity.R (kalman_filter_velocity.init F)).
Proof.
have pos k : 0 < (10 ^+ k)^-1 :> F by rewrite invr_gt0 exprn_gt0.
split; rewrite /= ?array_eye2.
- exact/symZ/sym1.
- exact/psdZ/psd1/ltW.
- exact/symZ/sym_array_diag2.
- exact/pdZ/pd_array_diag2.
Qed.

Lemma covariance_ok_reset6 (s : kalman_filter_6dof.t F) :
  covariance_ok (kalman_filter_6dof.P (kalman_filter_6dof.reset s).1).
Proof. by rewrite /= array_eye4; split; [apply: sym1 | apply: psd1]. Qed.

Lemma covariance_ok_resetV (s : kalman_filter_velocity.t F) :
  covariance_ok (kalman_filter_velocity.P (kalman_filter_velocity.reset s).1).
Proof. by rewrite /= array_eye2; split; [apply: sym1 | apply: psd1]. Qed.

Lemma covariance_ok_init6 :
  covariance_ok (kalman_filter_6dof.P (kalman_filter_6dof.init F)).
Proof. by rewrite /= array_eye4; split; [apply: sym1 | apply: psd1]. Qed.

Lemma covariance_ok_initV :
  covariance_ok (kalman_filter_velocity.P (kalman_filter_velocity.init F)).
Proof. by rewrite /= array_eye2; split; [apply: sym1 | apply: psd1]. Qed.

Lemma update6_covariance (s : kalman_filter_6dof.t F) gyroscope
    accelerometer dt :
  covariance_ok (kalman_filter_6dof.P s) ->
  noise_ok (kalman_filter_6dof.Q s) (kalman_filter_6dof.R s) ->
  let: (s', r) := kalman_filter_6dof.update np gyroscope accelerometer dt s in
  covariance_ok (kalman_filter_6dof.P s')
  /\ (kalman_filter_6dof.history_ok s -> is_ok r).
Proof.
move=> okP okN; rewrite update6E /=.
have [okP1 Su okP2] :=
  kalman_covariance_ok (kalman_filter_6dof.transition dt)
    (kalman_filter_6dof.C s) okP okN.
case E: kalman_filter_6dof.accel_means => [means|] /=.
  by rewrite /kalman_filter_6dof.innovation_cov /= Su.
by split=> // /accel_means_push6 => /(_ accelerometer); rewrite E.
Qed.

Lemma updateV_covariance (s : kalman_filter_velocity.t F) accelerometer
    pitch position dt :
  covariance_ok (kalman_filter_velocity.P s) ->
  noise_ok (kalman_filter_velocity.Q s) (kalman_filter_velocity.R s) ->
  let: (s', r) :=
    kalman_filter_velocity.update np accelerometer pitch position dt s in
  covariance_ok (kalman_filter_velocity.P s')
  /\ (kalman_filter_velocity.history_ok s -> dt != 0 -> is_ok r).
Proof.
move=> okP okN; rewrite updateVE /=.
have [okP1 Su okP2] :=
  kalman_covariance_ok (kalman_filter_velocity.transition dt)
    (kalman_filter_velocity.C s) okP okN.
case E: kalman_filter_velocity.accel_means => [means|] /=; last first.
  by split=> // /accel_means_pushV => /(_ accelerometer); rewrite E.
case: ifP => [_|_] /=; first by split=> // _.
by rewrite /kalman_filter_velocity.innovation_cov /= Su.
Qed.


End Covariance.

(** ** The rolling accelerometer histories *)

Section History.

Variable F : realFieldType.
Variable np : numpy F.

(** C2, as the code has it.  Each history list of a filter holds exactly
    two entries after every [reset] and every [update]: [update] appends
    the current reading and evicts the oldest entry before it takes the
    mean.  In the orientation filter the list of an axis then holds the
    previous and the current raw reading of that axis, and the step's
    smoothed acceleration for the axis is the mean of these two; in the
    velocity filter the same holds of the x axis. *)
Theorem history_holds_two_entries :
  (forall s : kalman_filter_6dof.t F,
     kalman_filter_6dof.reachable np s ->
     kalman_filter_6dof.history_ok s
     /\ forall gyroscope accelerometer dt,
          let s' :=
            (kalman_filter_6dof.update np gyroscope accelerometer dt s).1 in
          let prev l := nth 0 l 1 in
          [/\ kalman_filter_6dof.acc_x s' =
                [:: prev (kalman_filter_6dof.acc_x s); item0 accelerometer],
              kalman_filter_6dof.acc_y s' =
                [:: prev (kalman_filter_6dof.acc_y s); item1 accelerometer],
              kalman_filter_6dof.acc_z s' =
                [:: prev (kalman_filter_6dof.acc_z s); item2 accelerometer]
            & kalman_filter_6dof.accel_means
                (kalman_filter_6dof.push_history accelerometer s) =
              Some
                ((prev (kalman_filter_6dof.acc_x s) + item0 accelerometer) / 2,
                 (prev (kalman_filter_6dof.acc_y s) + item1 accelerometer) / 2,
                 (prev (kalman_filter_6dof.acc_z s) + item2 accelerometer) / 2)])
  /\
  (forall s : kalman_filter_velocity.t F,
     kalman_filter_velocity.reachable np s ->
     kalman_filter_velocity.history_ok s
     /\ forall accelerometer pitch position dt,
          let s' :=
            (kalman_filter_velocity.update np accelerometer pitch position
               dt s).1 in
          let prev l := nth 0 l 1 in
          [/\ kalman_filter_velocity.ac_x s' =
                [:: prev (kalman_filter_velocity.ac_x s); item0 accelerometer],
              kalman_filter_velocity.history_ok s'
            & exists my mz,
                kalman_filter_velocity.accel_means
                  (kalman_filter_velocity.push_history accelerometer s) =
                Some ((prev (kalman_filter_velocity.ac_x s)
                       + item0 accelerometer) / 2, my, mz)]).
Proof.
split=> s reach.
  have ok := reachable_history_ok6 reach; split=> // gyroscope accelerometer dt.
  have [ex ey ez] := update6_history np s gyroscope accelerometer dt.
  case/and3P: (ok) => hx hy hz /=.
  by rewrite ex ey ez !push2 // accel_means_push6.
have ok := reachable_history_okV reach.
split=> // accelerometer pitch position dt /=.
have [ex _ _] := updateV_history np s accelerometer pitch position dt.
case/and3P: (ok) => hx hy hz.
rewrite ex push2 // accel_means_pushV //; split=> //.
  exact: history_ok_updateV.
by eexists; eexists.
Qed.

End History.

(** C2, the witness: a freshly constructed orientation filter. *)
Lemma history_holds_two_entries_witness :
  kalman_filter_6dof.reachable np_rat (kalman_filter_6dof.init rat)
  /\ kalman_filter_6dof.history_ok (kalman_filter_6dof.init rat).
Proof.
have reach : kalman_filter_6dof.reachable np_rat (kalman_filter_6dof.init rat).
  exact: (kalman_filter_6dof.reach_reset np_rat (kalman_filter_6dof.init rat)).
split; first exact: reach.
exact: (proj1 (proj1 (history_holds_two_entries np_rat) _ reach)).
Defined.

(** C2, the counterexample: after the first [update] of a fresh filter
    the x history holds two entries, not three, and the smoothed x
    acceleration is the mean of these two. *)
Lemma history_holds_three_entries_counterexample :
  let s := kalman_filter_6dof.init rat in
  let s' := (kalman_filter_6dof.update np_rat (0, 0, 0) (1, 2, 3) 1 s).1 in
  [/\ kalman_filter_6dof.acc_x s' = [:: 0; 1],
      size (kalman_filter_6dof.acc_x s') <> 3%N
    & kalman_filter_6dof.accel_means
        (kalman_filter_6dof.push_history (1, 2, 3) s) =
      Some ((0 + 1) / 2, (0 + 2) / 2, (0 + 3) / 2)].
Proof.
move=> s s'.
have [ex _ _] := update6_history np_rat s (0, 0, 0) (1, 2, 3) 1.
by rewrite /s' ex; split=> //; rewrite accel_means_push6.
Qed.

(** ** Failing steps: the time step and the singular innovation covariance *)

Section Failures.

Variable F : realFieldType.
Variable np : numpy F.


(** C7.  A step whose innovation covariance [S] is singular raises: the
    call returns no value and does not assign the state vector.  The
    error is numpy's LinAlgError, raised by [np.linalg.inv]; in the
    velocity filter with [dt = 0] it is the ZeroDivisionError of the
    division by [dt], which comes first. *)
Theorem singular_innovation_raises :
  (forall (s : kalman_filter_6dof.t F) gyroscope accelerometer dt,
     kalman_filter_6dof.history_ok s ->
     kalman_filter_6dof.innovation_cov s dt \notin unitmx ->
     let: (s', r) :=
       kalman_filter_6dof.update np gyroscope accelerometer dt s in
     r = Raise LinAlgError
     /\ kalman_filter_6dof.x s' = kalman_filter_6dof.x s)
  /\
  (forall (s : kalman_filter_velocity.t F) accelerometer pitch position dt,
     kalman_filter_velocity.history_ok s ->
     kalman_filter_velocity.innovation_cov s dt \notin unitmx ->
     let: (s', r) :=
       kalman_filter_velocity.update np accelerometer pitch position dt s in
     r = Raise (if dt == 0 then ZeroDivisionError else LinAlgError)
     /\ kalman_filter_velocity.x s' = kalman_filter_velocity.x s).
Proof.
split=> [s gyroscope accelerometer dt ok|s accelerometer pitch position dt ok].
  by rewrite update6E /= (accel_means_push6 _ ok) => /negPf ->.
rewrite updateVE /= (accel_means_pushV _ ok) => /negPf ->.
by case: ifP.
Qed.

(** C10.  [update] of the velocity filter reads only [accelerometer[0]]:
    two calls from the same object that agree on it, and on the other
    arguments, end in the same object with the same outcome. *)
Theorem velocity_update_ignores_y_z (s : kalman_filter_velocity.t F)
    (a0 a1 a2 b1 b2 : F) pitch position dt :
  kalman_filter_velocity.update np (a0, a1, a2) pitch position dt s =
  kalman_filter_velocity.update np (a0, b1, b2) pitch position dt s.
Proof. by rewrite !updateVE. Qed.

End Failures.

Lemma zero_notin_unitmx2 : (0 : 'M[rat]_2) \notin unitmx.
Proof. by rewrite unitmxE det0 unitr0. Qed.



Lemma degenerate6_singular dt :
  kalman_filter_6dof.innovation_cov kalman_filter_6dof.degenerate dt
    \notin unitmx.
Proof.
rewrite /kalman_filter_6dof.innovation_cov /kalman_filter_6dof.degenerate /=.
by rewrite mul0mx add0r zero_notin_unitmx2.
Qed.

Lemma degenerateV_singular dt :
  kalman_filter_velocity.innovation_cov kalman_filter_velocity.degenerate dt
    \notin unitmx.
Proof.
rewrite /kalman_filter_velocity.innovation_cov.
rewrite /kalman_filter_velocity.degenerate /=.
by rewrite mul0mx add0r zero_notin_unitmx2.
Qed.

(** C7, the witness: the objects with all-zero arrays, whose innovation
    covariance is the zero matrix. *)
Lemma singular_innovation_raises_witness :
  (let: (s', r) :=
     kalman_filter_6dof.update np_rat (0, 0, 0) (0, 0, 1) 1
       kalman_filter_6dof.degenerate in
   r = Raise LinAlgError
   /\ kalman_filter_6dof.x s' =
      kalman_filter_6dof.x kalman_filter_6dof.degenerate)
  /\
  (let: (s', r) :=
     kalman_filter_velocity.update np_rat (0, 0, 1) 0 1 1
       kalman_filter_velocity.degenerate in
   r = Raise (if (1 : rat) == 0 then ZeroDivisionError else LinAlgError)
   /\ kalman_filter_velocity.x s' =
      kalman_filter_velocity.x kalman_filter_velocity.degenerate).
Proof.
split.
  exact: (proj1 (singular_innovation_raises np_rat)
            kalman_filter_6dof.degenerate (0, 0, 0) (0, 0, 1) 1 isT
            (degenerate6_singular 1)).
exact: (proj2 (singular_innovation_raises np_rat)
          kalman_filter_velocity.degenerate (0, 0, 1) 0 1 1 isT
          (degenerateV_singular 1)).
Defined.


(** ** Batch analysis with the orientation filter *)

Section OrientationAnalysis.

Import kalman_filter_6dof.

Variable F : realFieldType.
Variable np : numpy F.
Variable UnivariateSpline : spline_fit F.

Implicit Types (s : t F) (time_arr gy_x gy_y gy_z ac_x ac_y ac_z : seq F).

Local Notation inv6 := (@loop_invariant F).

Lemma reset6E s : reset s = ((reset s).1, Ok tt).
Proof. by []. Qed.

Lemma bind_reset6 B (k : unit -> M (t F) B) s :
  bind (@reset F) k s = k tt (reset s).1.
Proof. by rewrite /bind reset6E. Qed.

Lemma config_reset6 s : config (reset s).1 = config s.
Proof. by []. Qed.

Lemma reset6_config s s' : config s = config s' -> (reset s).1 = (reset s').1.
Proof. by rewrite !reset6P; case=> -> -> ->. Qed.

Lemma inv6_reset s : noise_ok (Q s) (R s) -> inv6 (reset s).1.
Proof. by move=> okN; split=> //; apply: covariance_ok_reset6. Qed.

Lemma analyze_step6_config time_arr gy_x gy_y gy_z ac_x ac_y ac_z i acc s :
  config (analyze_step np time_arr gy_x gy_y gy_z ac_x ac_y ac_z i acc s).1
  = config s.
Proof.
rewrite /analyze_step.
do 8![rewrite bindE_lift0; case: (getitem _ _) => [?|e] //].
set g := (_, _, _); set a := (_, _, _); set dt := _ - _.
have := config_update6 np s g a dt.
by rewrite /bind; case: (update _ _ _ _ _) => [s' [rp|e]].
Qed.

Lemma analyze_step6_size time_arr gy_x gy_y gy_z ac_x ac_y ac_z i acc s s'
    acc' :
  analyze_step np time_arr gy_x gy_y gy_z ac_x ac_y ac_z i acc s
    = (s', Ok acc') ->
  size acc'.1 = (size acc.1).+1 /\ size acc'.2 = (size acc.2).+1.
Proof.
rewrite /analyze_step.
do 8![rewrite bindE_lift0; case: (getitem _ _) => [?|e] //].
rewrite /bind; case: (update _ _ _ _ _) => [s1 [rp|e]] //=.
by case=> _ <- /=; rewrite !size_rcons.
Qed.

Lemma analyze_step6_ok time_arr gy_x gy_y gy_z ac_x ac_y ac_z i acc s :
  (0 < i < size time_arr)%N ->
  (size time_arr <= size gy_x)%N -> (size time_arr <= size gy_y)%N ->
  (size time_arr <= size gy_z)%N -> (size time_arr <= size ac_x)%N ->
  (size time_arr <= size ac_y)%N -> (size time_arr <= size ac_z)%N ->
  inv6 s ->
  exists s' acc',
    analyze_step np time_arr gy_x gy_y gy_z ac_x ac_y ac_z i acc s
      = (s', Ok acc') /\ inv6 s'.
Proof.
case/andP=> i0 it lgx lgy lgz lax lay laz [okH okP okN].
rewrite /analyze_step.
rewrite (getitem_nth 0 it) bindE_lift0.
rewrite subn1 (getitem_nth 0 (leq_ltn_trans (leq_pred i) it)) bindE_lift0.
rewrite (getitem_nth 0 (leq_trans it lgx)) bindE_lift0.
rewrite (getitem_nth 0 (leq_trans it lgy)) bindE_lift0.
rewrite (getitem_nth 0 (leq_trans it lgz)) bindE_lift0.
rewrite (getitem_nth 0 (leq_trans it lax)) bindE_lift0.
rewrite (getitem_nth 0 (leq_trans it lay)) bindE_lift0.
rewrite (getitem_nth 0 (leq_trans it laz)) bindE_lift0.
set g := (_, _, _); set a := (_, _, _); set dt := _ - _.
have := update6_covariance np g a dt okP okN.
have := config_update6 np s g a dt.
have := history_ok_update6 np g a dt okH.
rewrite /bind; case: (update _ _ _ _ _) => [s' [rp|e]] /= okH'.
  case=> eQ eR _ [okP' _]; eexists; eexists; split; first by [].
  by split=> //; rewrite eQ eR.
by move=> _ [_ /(_ okH)].
Qed.

(** The Kalman pass returns one angle pair per timestamp. *)
Lemma kalman_pass6_ok time_arr gy_x gy_y gy_z ac_x ac_y ac_z s :
  (size time_arr <= size gy_x)%N -> (size time_arr <= size gy_y)%N ->
  (size time_arr <= size gy_z)%N -> (size time_arr <= size ac_x)%N ->
  (size time_arr <= size ac_y)%N -> (size time_arr <= size ac_z)%N ->
  noise_ok (Q s) (R s) ->
  exists s' arrs,
    kalman_pass np time_arr gy_x gy_y gy_z ac_x ac_y ac_z s = (s', Ok arrs).
Proof.
move=> lgx lgy lgz lax lay laz okN.
rewrite /kalman_pass bind_reset6.
have [|s' [arrs [E _]]] :=
  @for_each_ok _ _ (@loop_invariant F) (iota 1 (size time_arr - 1))
    (analyze_step np time_arr gy_x gy_y gy_z ac_x ac_y ac_z) _
    ([:: 0], [:: 0]) _ (inv6_reset okN); last by exists s', arrs.
move=> i acc st; rewrite mem_iota => /andP [i0 it] inv.
apply: analyze_step6_ok => //; rewrite i0 /=.
move: it i0; case: (size time_arr) => [|n]; first by case: i.
by rewrite subn1 add1n.
Qed.

Lemma kalman_pass6_size time_arr gy_x gy_y gy_z ac_x ac_y ac_z s s' arrs :
  time_arr != [::] ->
  kalman_pass np time_arr gy_x gy_y gy_z ac_x ac_y ac_z s = (s', Ok arrs) ->
  size arrs.1 = size time_arr /\ size arrs.2 = size time_arr.
Proof.
move=> tN0; rewrite /kalman_pass bind_reset6 => E.
have n1 : (1 + (size time_arr - 1) = size time_arr)%N.
  by case: time_arr tN0 {E} => // t0 l _; rewrite /= subn1 add1n.
split.
  rewrite (for_each_size (sz := fun a => size a.1) _ E) ?size_iota //.
  by move=> i acc st st' acc' /analyze_step6_size [].
rewrite (for_each_size (sz := fun a => size a.2) _ E) ?size_iota //.
by move=> i acc st st' acc' /analyze_step6_size [].
Qed.

Lemma kalman_pass6_config time_arr gy_x gy_y gy_z ac_x ac_y ac_z s :
  config (kalman_pass np time_arr gy_x gy_y gy_z ac_x ac_y ac_z s).1
  = config s.
Proof.
rewrite /kalman_pass bind_reset6 for_each_keeps //.
by move=> i acc st; apply: analyze_step6_config.
Qed.

(** [analyze_dataset] on a dataset of seven sub-arrays: the Kalman pass,
    then [zero] and [smooth] on its two lists. *)
Lemma analyze6E time_arr gy_x gy_y gy_z ac_x ac_y ac_z s :
  analyze_dataset np UnivariateSpline
    [:: time_arr; gy_x; gy_y; gy_z; ac_x; ac_y; ac_z] s =
    let: (s', r) :=
      kalman_pass np time_arr gy_x gy_y gy_z ac_x ac_y ac_z s in
    match r with
    | Raise e => (s', Raise e)
    | Ok arrs =>
      match smooth UnivariateSpline (zero arrs.1) time_arr 1 with
      | Raise e => (s', Raise e)
      | Ok roll_arr =>
        match smooth UnivariateSpline (zero arrs.2) time_arr 1 with
        | Raise e => (s', Raise e)
        | Ok pitch_arr => (s', Ok (roll_arr, pitch_arr))
        end
      end
    end.
Proof.
rewrite /analyze_dataset /kalman_pass.
do 7![rewrite bindE_lift0 /=].
rewrite !bind_reset6 /bind.
by case: (for_each _ _ _ _) => [s' [arrs|e]].
Qed.

(** The outcome of [analyze_dataset] depends on the object through its
    configuration only, and the call keeps the configuration. *)
Lemma analyze6_config_only dataset s s' :
  config s = config s' ->
  (analyze_dataset np UnivariateSpline dataset s).2
  = (analyze_dataset np UnivariateSpline dataset s').2.
Proof.
move=> eqc; rewrite /analyze_dataset.
do 7![rewrite !bindE_lift0; case: (getitem _ _) => [?|e] //].
by rewrite !bind_reset6 (reset6_config eqc).
Qed.

Lemma analyze6_config dataset s :
  config (analyze_dataset np UnivariateSpline dataset s).1 = config s.
Proof.
rewrite /analyze_dataset.
do 7![rewrite !bindE_lift0; case: (getitem _ _) => [?|e] //].
rewrite bind_reset6 /bind.
set body := analyze_step _ _ _ _ _ _ _ _; set idxs := iota _ _.
have keep : config (for_each idxs ([:: 0], [:: 0]) body (reset s).1).1
            = config s.
  by rewrite for_each_keeps // => i acc st; apply: analyze_step6_config.
move: keep; case: (for_each _ _ _ _) => [s1 [arrs|e]] //= keep.
rewrite /lift; case: (smooth _ _ _ _) => [roll_arr|e] //.
by case: (smooth _ _ _ _) => [pitch_arr|e].
Qed.

(** [zero] on a list that does not reach index 200. *)
Lemma zero_short (arr : seq F) :
  (size arr < 200)%N ->
  zero arr =
    if (size arr <= 100)%N then nseq (size arr) NaN
    else [seq Num (v - (\sum_(w <- drop 100 arr) w) / (size arr - 100)%:R)
         | v <- arr].
Proof.
move=> short; rewrite /zero /slice take_oversize; first exact: ltnW.
case: leqP => [le100|gt100].
  rewrite drop_oversize //=.
  by elim: (arr) => [|v l IH] //=; rewrite IH.
have: size (drop 100 arr) = (size arr - 100)%N by rewrite size_drop.
case: (drop 100 arr) => [|w l] /=; last by move=> <-.
by move/esym/eqP; rewrite subn_eq0 leqNgt gt100.
Qed.

End OrientationAnalysis.

(** ** Batch analysis with the velocity filter *)

Section VelocityAnalysis.

Import kalman_filter_velocity.

Variable F : realFieldType.
Variable np : numpy F.

Implicit Types (s : t F) (time_arr ac_x ac_y ac_z pitch position : seq F).

Local Notation invV := (@loop_invariant F).

Lemma resetVE s : reset s = ((reset s).1, Ok tt).
Proof. by []. Qed.

Lemma bind_resetV B (k : unit -> M (t F) B) s :
  bind (@reset F) k s = k tt (reset s).1.
Proof. by rewrite /bind resetVE. Qed.

Lemma resetV_config s s' : config s = config s' -> (reset s).1 = (reset s').1.
Proof. by rewrite !resetVP; case=> -> -> -> -> ->. Qed.

Lemma invV_reset s : noise_ok (Q s) (R s) -> invV (reset s).1.
Proof. by move=> okN; split=> //; apply: covariance_ok_resetV. Qed.

Lemma analyze_stepV_config time_arr ac_x ac_y ac_z pitch position i acc s :
  config (analyze_step np time_arr ac_x ac_y ac_z pitch position i acc s).1
  = config s.
Proof.
rewrite /analyze_step.
do 7![rewrite bindE_lift0; case: (getitem _ _) => [?|e] //].
rewrite /bind; set u := update _ _ _ _ _ _.
have -> : config s = config u.1 by rewrite /u config_updateV.
by case: u => [s' [rp|e]].
Qed.


Lemma analyze_stepV_ok time_arr ac_x ac_y ac_z pitch position i acc s :
  (0 < i < size time_arr)%N ->
  nth 0 time_arr i != nth 0 time_arr (i - 1) ->
  (size time_arr <= size ac_x)%N -> (size time_arr <= size ac_y)%N ->
  (size time_arr <= size ac_z)%N -> (size time_arr <= size pitch)%N ->
  (size time_arr <= size position)%N ->
  invV s ->
  exists s' acc',
    analyze_step np time_arr ac_x ac_y ac_z pitch position i acc s
      = (s', Ok acc') /\ invV s'.
Proof.
case/andP=> i0 it dtN0 lax lay laz lp lpos [okH okP okN].
rewrite /analyze_step.
rewrite (getitem_nth 0 it) bindE_lift0.
move: dtN0; rewrite subn1 => dtN0.
rewrite (getitem_nth 0 (leq_ltn_trans (leq_pred i) it)) bindE_lift0.
rewrite (getitem_nth 0 (leq_trans it lax)) bindE_lift0.
rewrite (getitem_nth 0 (leq_trans it lay)) bindE_lift0.
rewrite (getitem_nth 0 (leq_trans it laz)) bindE_lift0.
rewrite (getitem_nth 0 (leq_trans it lp)) bindE_lift0.
rewrite (getitem_nth 0 (leq_trans it lpos)) bindE_lift0.
set a := (_, _, _); set dt := _ - _; set p := nth _ pitch _.
set pos := nth _ position _.
have dt0 : dt != 0 by rewrite subr_eq0.
have := updateV_covariance np a p pos dt okP okN.
have := config_updateV np s a p pos dt.
have := history_ok_updateV np a p pos dt okH.
rewrite /bind; case: (update _ _ _ _ _ _) => [s' [rp|e]] /= okH'.
  case=> _ eQ _ eR _ [okP' _]; eexists; eexists; split; first by [].
  by split=> //; rewrite eQ eR.
by move=> _ [_ /(_ okH dt0)].
Qed.

(** The Kalman pass returns one speed per timestamp. *)
Lemma kalman_passV_ok time_arr ac_x ac_y ac_z pitch position s :
  steps_nonzero time_arr ->
  (size time_arr <= size ac_x)%N -> (size time_arr <= size ac_y)%N ->
  (size time_arr <= size ac_z)%N -> (size time_arr <= size pitch)%N ->
  (size time_arr <= size position)%N ->
  noise_ok (Q s) (R s) ->
  exists s' speed_arr,
    kalman_pass np time_arr ac_x ac_y ac_z pitch position s
      = (s', Ok speed_arr).
Proof.
move=> /allP steps lax lay laz lp lpos okN.
rewrite /kalman_pass bind_resetV.
have [|s' [arr [E _]]] :=
  @for_each_ok _ _ (@loop_invariant F) (iota 1 (size time_arr - 1))
    (analyze_step np time_arr ac_x ac_y ac_z pitch position) _
    [:: 0] _ (invV_reset okN); last by exists s', arr.
move=> i acc st iin inv; apply: analyze_stepV_ok => //; last exact: steps.
move: iin; rewrite mem_iota => /andP [i0 it]; rewrite i0 /=.
move: it i0; case: (size time_arr) => [|n]; first by case: i.
by rewrite subn1 add1n.
Qed.


(** [analyze_dataset] on a dataset of six sub-arrays is the Kalman pass. *)
Lemma analyzeVE time_arr ac_x ac_y ac_z pitch position s :
  analyze_dataset np [:: time_arr; ac_x; ac_y; ac_z; pitch; position] s =
  kalman_pass np time_arr ac_x ac_y ac_z pitch position s.
Proof.
rewrite /analyze_dataset /kalman_pass.
by do 6![rewrite bindE_lift0 /=].
Qed.

Lemma analyzeV_config_only dataset s s' :
  config s = config s' ->
  (analyze_dataset np dataset s).2 = (analyze_dataset np dataset s').2.
Proof.
move=> eqc; rewrite /analyze_dataset.
do 6![rewrite !bindE_lift0; case: (getitem _ _) => [?|e] //].
by rewrite !bind_resetV (resetV_config eqc).
Qed.

Lemma analyzeV_config dataset s :
  config (analyze_dataset np dataset s).1 = config s.
Proof.
rewrite /analyze_dataset.
do 6![rewrite !bindE_lift0; case: (getitem _ _) => [?|e] //].
rewrite bind_resetV for_each_keeps // => i acc st.
exact: analyze_stepV_config.
Qed.

End VelocityAnalysis.

(** ** Batch analysis: what the claims say *)

Section Analysis.

Variable F : realFieldType.
Variable np : numpy F.
Variable UnivariateSpline : spline_fit F.

(** C9.  [analyze_dataset] starts with [reset], so its outcome depends on
    the object through the coefficient arrays [Q], [R], [C] only: a
    second run on the same object, with or without an explicit [reset] in
    between, and a run on any object with the same arrays, give the
    outcome of the first run. *)
Theorem analyze_dataset_ignores_leftover_state :
  (forall (dataset : seq (seq F)) (s : kalman_filter_6dof.t F),
     let analyze := kalman_filter_6dof.analyze_dataset np UnivariateSpline in
     let first := analyze dataset s in
     [/\ (analyze dataset first.1).2 = first.2,
         (analyze dataset (kalman_filter_6dof.reset first.1).1).2 = first.2
       & forall x P acc_x acc_y acc_z,
           (analyze dataset
              (kalman_filter_6dof.Filter x P acc_x acc_y acc_z
                 (kalman_filter_6dof.Q s) (kalman_filter_6dof.R s)
                 (kalman_filter_6dof.C s))).2 = first.2])
  /\
  (forall (dataset : seq (seq F)) (s : kalman_filter_velocity.t F),
     let analyze := kalman_filter_velocity.analyze_dataset np in
     let first := analyze dataset s in
     [/\ (analyze dataset first.1).2 = first.2,
         (analyze dataset (kalman_filter_velocity.reset first.1).1).2
           = first.2
       & forall ac_x ac_y ac_z x P current_position,
           (analyze dataset
              (kalman_filter_velocity.Filter ac_x ac_y ac_z x P
                 current_position
                 (kalman_filter_velocity.Q_coeff s)
                 (kalman_filter_velocity.Q s)
                 (kalman_filter_velocity.R_coeff s)
                 (kalman_filter_velocity.R s)
                 (kalman_filter_velocity.C s))).2 = first.2]).
Proof.
split=> dataset s analyze first.
  have keep : kalman_filter_6dof.config first.1 = kalman_filter_6dof.config s.
    exact: analyze6_config.
  split=> [||x P acc_x acc_y acc_z]; exact: analyze6_config_only.
have keep :
  kalman_filter_velocity.config first.1 = kalman_filter_velocity.config s.
  exact: analyzeV_config.
split=> [||ac_x ac_y ac_z x P current_position]; exact: analyzeV_config_only.
Qed.

(** C5, as the code has it.  [analyze_dataset] of the orientation filter
    runs the per-sample update over the whole dataset and then applies
    [zero] (every sample minus the mean of the samples at indices 100 to
    199) and [smooth] (the spline fitted with smoothing 1, evaluated at
    the timestamps) to the roll and to the pitch list.
    [analyze_dataset] of the velocity filter runs the per-sample update
    over the whole dataset and returns the list of speeds as it is. *)
Theorem analyze_dataset_post_processing :
  (forall time_arr gy_x gy_y gy_z ac_x ac_y ac_z
          (s : kalman_filter_6dof.t F),
     kalman_filter_6dof.analyze_dataset np UnivariateSpline
       [:: time_arr; gy_x; gy_y; gy_z; ac_x; ac_y; ac_z] s =
     let: (s', r) :=
       kalman_filter_6dof.kalman_pass np time_arr gy_x gy_y gy_z
         ac_x ac_y ac_z s in
     let offset_removed (arr : seq F) :=
       [seq np_sub v (np_mean (drop 100 (take 200 arr))) | v <- arr] in
     let smoothed (arr : seq (npfloat F)) :=
       if UnivariateSpline time_arr arr 1 is Some curve
       then Ok [seq curve t | t <- time_arr] else Raise SplineError in
     match r with
     | Raise e => (s', Raise e)
     | Ok arrs =>
       match smoothed (offset_removed arrs.1) with
       | Raise e => (s', Raise e)
       | Ok roll_arr =>
         match smoothed (offset_removed arrs.2) with
         | Raise e => (s', Raise e)
         | Ok pitch_arr => (s', Ok (roll_arr, pitch_arr))
         end
       end
     end)
  /\
  (forall time_arr ac_x ac_y ac_z pitch position
          (s : kalman_filter_velocity.t F),
     kalman_filter_velocity.analyze_dataset np
       [:: time_arr; ac_x; ac_y; ac_z; pitch; position] s =
     kalman_filter_velocity.kalman_pass np time_arr ac_x ac_y ac_z
       pitch position s).
Proof.
split=> [time_arr gy_x gy_y gy_z ac_x ac_y ac_z s|]; last exact: analyzeVE.
by rewrite analyze6E.
Qed.

End Analysis.

(** C5, the counterexample: on a dataset of one sample the velocity
    filter returns the raw list [[0]]; baseline removal would have made
    the sample nan (the window is empty), and the smoothing of that list
    is whatever the spline gives, here [[1]]. *)
Lemma velocity_analyze_dataset_counterexample :
  let dataset : seq (seq rat) :=
    [:: [:: 0]; [:: 0]; [:: 0]; [:: 0]; [:: 0]; [:: 0]] in
  [/\ (kalman_filter_velocity.analyze_dataset np_rat dataset
         (kalman_filter_velocity.init rat)).2 = Ok [:: 0],
      kalman_filter_6dof.zero [:: (0 : rat)] = [:: NaN]
    & kalman_filter_velocity.smooth spline_rat [:: NaN] [:: 0] 1
      = Ok [:: Num 1]].
Proof. by []. Qed.

Section Lengths.

Variable F : realFieldType.
Variable np : numpy F.
Variable UnivariateSpline : spline_fit F.

Lemma channels_cover6 (time_arr c1 c2 c3 c4 c5 c6 : seq F) :
  channels_cover time_arr [:: c1; c2; c3; c4; c5; c6] ->
  [/\ (size time_arr <= size c1)%N, (size time_arr <= size c2)%N,
      (size time_arr <= size c3)%N
    & [/\ (size time_arr <= size c4)%N, (size time_arr <= size c5)%N
        & (size time_arr <= size c6)%N]].
Proof. by case/and5P=> h1 h2 h3 h4 /andP [h5 /andP [h6 _]]. Qed.


(** C6, as the code has it.  [analyze_dataset] of the orientation filter
    does not check the length of the dataset.  On a dataset of fewer than
    200 samples (with well-formed noise matrices and channels as long as
    the time axis) the Kalman pass returns one roll and one pitch per
    sample, and [zero] takes the baseline over the samples that exist
    from index 100 on: the mean of the last [n - 100] samples when
    [n > 100], and nan when [n <= 100], which makes every sample nan.
    The lists go to [smooth] as they are, and the call raises only if
    the spline fit does. *)
Theorem analyze_short_dataset time_arr gy_x gy_y gy_z ac_x ac_y ac_z
    (s : kalman_filter_6dof.t F) :
  time_arr != [::] -> (size time_arr < 200)%N ->
  channels_cover time_arr [:: gy_x; gy_y; gy_z; ac_x; ac_y; ac_z] ->
  noise_ok (kalman_filter_6dof.Q s) (kalman_filter_6dof.R s) ->
  let baseline_removed (arr : seq F) :=
    if (size time_arr <= 100)%N then nseq (size time_arr) NaN
    else [seq Num (v - (\sum_(w <- drop 100 arr) w)
                       / (size time_arr - 100)%:R) | v <- arr] in
  exists s' arrs,
    [/\ kalman_filter_6dof.kalman_pass np time_arr gy_x gy_y gy_z
          ac_x ac_y ac_z s = (s', Ok arrs),
        size arrs.1 = size time_arr /\ size arrs.2 = size time_arr,
        kalman_filter_6dof.zero arrs.1 = baseline_removed arrs.1
        /\ kalman_filter_6dof.zero arrs.2 = baseline_removed arrs.2
      & kalman_filter_6dof.analyze_dataset np UnivariateSpline
          [:: time_arr; gy_x; gy_y; gy_z; ac_x; ac_y; ac_z] s =
        match kalman_filter_6dof.smooth UnivariateSpline
                (baseline_removed arrs.1) time_arr 1 with
        | Raise e => (s', Raise e)
        | Ok roll_arr =>
          match kalman_filter_6dof.smooth UnivariateSpline
                  (baseline_removed arrs.2) time_arr 1 with
          | Raise e => (s', Raise e)
          | Ok pitch_arr => (s', Ok (roll_arr, pitch_arr))
          end
        end].
Proof.
move=> tN0 short /channels_cover6 [h1 h2 h3 [h4 h5 h6]] okN baseline_removed.
have [s' [arrs E]] := kalman_pass6_ok np h1 h2 h3 h4 h5 h6 okN.
have [sz1 sz2] := kalman_pass6_size tN0 E.
have z1 : kalman_filter_6dof.zero arrs.1 = baseline_removed arrs.1.
  by rewrite zero_short sz1.
have z2 : kalman_filter_6dof.zero arrs.2 = baseline_removed arrs.2.
  by rewrite zero_short sz2.
by exists s', arrs; split=> //; rewrite analyze6E E z1 z2.
Qed.


End Lengths.

Lemma short_dataset_ok :
  [/\ short_time != [::], (size short_time < 200)%N
    & channels_cover short_time
        [:: at_rest; at_rest; at_rest; at_rest; at_rest; gravity]].
Proof.
split; first by [].
  by rewrite size_map size_iota.
by rewrite /channels_cover /=.
Qed.

(** C6, the witness: 150 samples into a freshly constructed filter. *)
Lemma analyze_short_dataset_witness :
  exists s' arrs,
    kalman_filter_6dof.kalman_pass np_rat short_time at_rest at_rest at_rest
      at_rest at_rest gravity (kalman_filter_6dof.init rat) = (s', Ok arrs)
    /\ size arrs.1 = size short_time.
Proof.
have [tN0 short cover] := short_dataset_ok.
have [s' [arrs [E [sz _] _ _]]] :=
  analyze_short_dataset np_rat spline_rat tN0 short cover (noise_ok_init6 rat).
by exists s', arrs.
Defined.

(** C6, the counterexample: on these 150 samples [analyze_dataset]
    returns its two lists; nothing is raised for the length. *)
Lemma analyze_short_dataset_counterexample :
  size short_time = 150%N
  /\ is_ok (kalman_filter_6dof.analyze_dataset np_rat spline_rat
              short_dataset (kalman_filter_6dof.init rat)).2.
Proof.
split; first by rewrite size_map size_iota.
have [tN0 short /channels_cover6 [h1 h2 h3 [h4 h5 h6]]] := short_dataset_ok.
have [s' [arrs E]] :=
  kalman_pass6_ok np_rat h1 h2 h3 h4 h5 h6 (noise_ok_init6 rat).
by rewrite /short_dataset analyze6E E.
Qed.

Lemma steps_nonzero01 : steps_nonzero [:: (0 : rat); 1].
Proof. by []. Qed.



(** * Further properties of the two classes *)

(** ** Loops and list access *)

Section Loops.

Variables S A : Type.

Lemma for_each_cat (l1 l2 : seq nat) (acc : A) (body : nat -> A -> M S A)
    (st : S) :
  for_each (l1 ++ l2) acc body st =
    match for_each l1 acc body st with
    | (st', Ok acc') => for_each l2 acc' body st'
    | (st', Raise e) => (st', Raise e)
    end.
Proof.
elim: l1 acc st => [|i l1 IH] acc st //=.
by rewrite /bind; case: (body i acc st) => [st1 [acc1|e]].
Qed.

(** Two loop bodies that agree on the indices give the same loop. *)
Lemma for_each_ext (idxs : seq nat) (body body' : nat -> A -> M S A) :
  (forall i acc st, i \in idxs -> body i acc st = body' i acc st) ->
  forall acc st, for_each idxs acc body st = for_each idxs acc body' st.
Proof.
elim: idxs => [|i idxs IH] same acc st //=.
rewrite /bind same ?mem_head //.
case: (body' i acc st) => [st1 [acc1|e]] //.
by apply: IH => j acc2 st2 jin; apply: same; rewrite in_cons jin orbT.
Qed.

(** A loop raises at the first index where its body does. *)
Lemma for_each_raise (I : S -> Prop) (bad : pred nat) (e : exn)
    (idxs : seq nat) (body : nat -> A -> M S A) :
  has bad idxs ->
  (forall i acc st, i \in idxs -> ~~ bad i -> I st ->
     exists st' acc', body i acc st = (st', Ok acc') /\ I st') ->
  (forall i acc st, i \in idxs -> bad i -> I st ->
     body i acc st = (st, Raise e)) ->
  forall acc st, I st -> (for_each idxs acc body st).2 = Raise e.
Proof.
elim: idxs => [|i idxs IH] //= hbad good fail acc st inv.
rewrite /bind; case bi: (bad i).
  by rewrite fail ?mem_head.
have iin : i \in i :: idxs by rewrite mem_head.
have nb : ~~ bad i by rewrite bi.
have [st1 [acc1 [-> inv1]]] := good i acc st iin nb inv.
move: hbad; rewrite bi /= => hbad.
apply: IH => // [j acc2 st2 jin|j acc2 st2 jin].
  by apply: good; rewrite in_cons jin orbT.
by apply: fail; rewrite in_cons jin orbT.
Qed.

End Loops.

Section ListAccess.

Variable F : realFieldType.

Lemma getitemE (l : seq F) (i : nat) :
  getitem l i = if (i < size l)%N then Ok (nth 0 l i) else Raise IndexError.
Proof.
case: ltnP => [lt|ge]; first exact: getitem_nth.
by rewrite /getitem drop_oversize.
Qed.

Lemma getitem_cons (a b : F) (l : seq F) (i : nat) :
  (0 < i)%N -> getitem (a :: l) i = getitem (b :: l) i.
Proof. by case: i. Qed.

Lemma getitem_map (f : F -> F) (l : seq F) (i : nat) :
  getitem [seq f v | v <- l] i =
    match getitem l i with Ok a => Ok (f a) | Raise e => Raise e end.
Proof.
rewrite !getitemE size_map; case: ltnP => // lt.
by rewrite (nth_map 0).
Qed.

End ListAccess.

(** ** More on the Kalman step *)

Section GainAlgebra.

Variable F : realFieldType.



(** Without measurement noise the updated state maps onto the
    measurement. *)
Lemma noiseless_update n m (P1 : 'M[F]_n) (C0 : 'M[F]_(m, n))
    (x1 : 'cV[F]_n) (z : 'cV[F]_m) :
  let S := C0 *m (P1 *m C0^T) + 0 in
  let K := P1 *m (C0^T *m invmx S) in
  S \in unitmx -> C0 *m (x1 + K *m (z - C0 *m x1)) = z.
Proof.
move=> S K Su.
have CK : C0 *m K = 1%:M.
  by rewrite /K !mulmxA -[X in X *m invmx S]addr0 -!mulmxA mulmxV.
by rewrite mulmxDr mulmxA CK mul1mx addrC subrK.
Qed.

Lemma np_mean_push (l : seq F) (a : F) :
  np_mean (behead (rcons l a)) =
    if l is h :: t then Num ((\sum_(v <- rcons t a) v) / (size l)%:R)
    else NaN.
Proof. by case: l => [|h [|h2 t]] //=; rewrite size_rcons. Qed.

End GainAlgebra.

Section StepProperties.

Variable F : realFieldType.
Variable np : numpy F.

(** X1.  The covariance a step leaves, and whether the step returns or
    raises, do not depend on the sensor readings: two calls of [update]
    from the same object with the same [dt] leave the same covariance
    and both return or both raise, whatever the gyroscope,
    accelerometer, pitch and position arguments are. *)
Theorem covariance_ignores_readings :
  (forall (s : kalman_filter_6dof.t F) gyroscope accelerometer
          gyroscope' accelerometer' dt,
     let r := kalman_filter_6dof.update np gyroscope accelerometer dt s in
     let r' := kalman_filter_6dof.update np gyroscope' accelerometer' dt s in
     kalman_filter_6dof.P r.1 = kalman_filter_6dof.P r'.1
     /\ is_ok r.2 = is_ok r'.2)
  /\
  (forall (s : kalman_filter_velocity.t F) accelerometer pitch position
          accelerometer' pitch' position' dt,
     let r :=
       kalman_filter_velocity.update np accelerometer pitch position dt s in
     let r' :=
       kalman_filter_velocity.update np accelerometer' pitch' position'
         dt s in
     kalman_filter_velocity.P r.1 = kalman_filter_velocity.P r'.1
     /\ is_ok r.2 = is_ok r'.2).
Proof.
split=> [s g a g' a' dt|s a p pos a' p' pos' dt] /=.
  rewrite !update6E /= /kalman_filter_6dof.accel_means /= !np_mean_push.
  case: (kalman_filter_6dof.acc_x s) => [|? ?] //.
  case: (kalman_filter_6dof.acc_y s) => [|? ?] //.
  case: (kalman_filter_6dof.acc_z s) => [|? ?] //=.
  by case: ifP.
rewrite !updateVE /= /kalman_filter_velocity.accel_means /= !np_mean_push.
case: (kalman_filter_velocity.ac_x s) => [|? ?] //.
case: (kalman_filter_velocity.ac_y s) => [|? ?] //.
case: (kalman_filter_velocity.ac_z s) => [|? ?] //=.
by case: ifP => // _; case: ifP.
Qed.





End StepProperties.

(** ** A filter told that its measurements are exact *)

Section Noiseless.

Variable F : realFieldType.
Variable np : numpy F.

(** The measurement map of the constructor picks the roll and the pitch
    out of the state. *)
Lemma default_C_rows (x0 : 'cV[F]_4) :
  kalman_filter_6dof.C (kalman_filter_6dof.init F) *m x0
  = (array2 1 2 [:: [:: entry x0 0 0; entry x0 2 0]])^T.
Proof.
apply/matrixP=> i j; rewrite /= !mxE !big_ord_recl big_ord0 !mxE /= addr0.
rewrite /entry ord1.
have -> : (inord 0 : 'I_4) = ord0 by apply: val_inj; rewrite /= inordK.
have -> : (inord 2 : 'I_4) = fintype.lift ord0 (fintype.lift ord0 ord0).
  by apply: val_inj; rewrite /= inordK.
have -> : (inord 0 : 'I_1) = ord0 by apply: val_inj; rewrite /= inordK.
by case: i => [[|[|i]] ?] //=; rewrite !mul0r mul1r !addr0 ?add0r.
Qed.

Lemma array_col2 (a b c d : F) :
  (array2 1 2 [:: [:: a; b]])^T = (array2 1 2 [:: [:: c; d]])^T ->
  a = c /\ b = d.
Proof.
move/matrixP=> eq; split.
  by have := eq ord0 ord0; rewrite !mxE.
by have := eq (fintype.lift ord0 ord0) ord0; rewrite !mxE.
Qed.

Lemma update6_noiseless (s : kalman_filter_6dof.t F) gyroscope
    accelerometer dt means :
  kalman_filter_6dof.R s = 0 ->
  kalman_filter_6dof.accel_means
    (kalman_filter_6dof.push_history accelerometer s) = Some means ->
  let: (s', r) :=
    kalman_filter_6dof.update np gyroscope accelerometer dt s in
  is_ok r ->
  kalman_filter_6dof.C s *m kalman_filter_6dof.x s'
    = kalman_filter_6dof.measurement np means
  /\ r = Ok (np_degrees np (entry (kalman_filter_6dof.x s') 0 0),
            np_degrees np (entry (kalman_filter_6dof.x s') 2 0)).
Proof.
move=> R0 hmeans; rewrite update6E /= hmeans.
rewrite /kalman_filter_6dof.innovation_cov /= R0.
by case: ifP => //= Su _; split=> //; apply: noiseless_update.
Qed.

Lemma updateV_noiseless (s : kalman_filter_velocity.t F) accelerometer
    pitch position dt :
  kalman_filter_velocity.R s = 0 ->
  let: (s', r) :=
    kalman_filter_velocity.update np accelerometer pitch position dt s in
  is_ok r ->
  kalman_filter_velocity.C s *m kalman_filter_velocity.x s'
    = kalman_filter_velocity.measurement s position dt
  /\ r = Ok (entry (kalman_filter_velocity.x s') 1 0).
Proof.
move=> R0; rewrite updateVE /=.
case: kalman_filter_velocity.accel_means => [means|] //=.
case: ifP => //= _.
rewrite /kalman_filter_velocity.innovation_cov /= R0.
by case: ifP => //= Su _; split=> //; apply: noiseless_update.
Qed.

(** X4.  With the measurement noise [R] set to zero, a step that returns
    leaves a state that maps exactly onto the measurement:
    [C x = z], where [z] is the pair of accelerometer angles
    (orientation filter) or the speed derived from the position
    (velocity filter). *)
Theorem noiseless_update_matches_measurement :
  (forall (s : kalman_filter_6dof.t F) gyroscope accelerometer dt means,
     kalman_filter_6dof.R s = 0 ->
     kalman_filter_6dof.accel_means
       (kalman_filter_6dof.push_history accelerometer s) = Some means ->
     let: (s', r) :=
       kalman_filter_6dof.update np gyroscope accelerometer dt s in
     is_ok r ->
     kalman_filter_6dof.C s *m kalman_filter_6dof.x s'
       = kalman_filter_6dof.measurement np means)
  /\
  (forall (s : kalman_filter_velocity.t F) accelerometer pitch position dt,
     kalman_filter_velocity.R s = 0 ->
     let: (s', r) :=
       kalman_filter_velocity.update np accelerometer pitch position dt s in
     is_ok r ->
     kalman_filter_velocity.C s *m kalman_filter_velocity.x s'
       = kalman_filter_velocity.measurement s position dt).
Proof.
split=> [s g a dt means R0 hmeans|s a p pos dt R0].
  have := update6_noiseless g dt R0 hmeans.
  by case: kalman_filter_6dof.update => s' r h /h [].
have := updateV_noiseless a p pos dt R0.
by case: kalman_filter_velocity.update => s' r h /h [].
Qed.

(** X5.  With [R] set to zero and the measurement map of the
    constructor, a step that returns, returns the measurement itself:
    the orientation filter the accelerometer roll and pitch (in
    degrees) of the smoothed acceleration, the velocity filter the speed
    [(position - previous position) / dt]; the gyroscope, the pitch and
    the acceleration of the velocity filter have no influence. *)
Theorem noiseless_update_returns_measurement :
  (forall (s : kalman_filter_6dof.t F) gyroscope accelerometer dt
          acc_x_mean acc_y_mean acc_z_mean,
     kalman_filter_6dof.R s = 0 ->
     kalman_filter_6dof.C s = kalman_filter_6dof.C (kalman_filter_6dof.init F) ->
     kalman_filter_6dof.accel_means
       (kalman_filter_6dof.push_history accelerometer s)
       = Some (acc_x_mean, acc_y_mean, acc_z_mean) ->
     let r := (kalman_filter_6dof.update np gyroscope accelerometer dt s).2 in
     is_ok r ->
     r = Ok (np_degrees np
               (np_arctan2 np acc_z_mean
                  (np_sqrt np (acc_y_mean * acc_y_mean
                               + acc_x_mean * acc_x_mean))),
             np_degrees np
               (np_arctan2 np (- acc_x_mean)
                  (np_sqrt np (acc_z_mean * acc_z_mean
                               + acc_y_mean * acc_y_mean)))))
  /\
  (forall (s : kalman_filter_velocity.t F) accelerometer pitch position dt,
     kalman_filter_velocity.R s = 0 ->
     kalman_filter_velocity.C s
       = kalman_filter_velocity.C (kalman_filter_velocity.init F) ->
     let r :=
       (kalman_filter_velocity.update np accelerometer pitch position
          dt s).2 in
     is_ok r ->
     r = Ok ((position - kalman_filter_velocity.current_position s) / dt)).
Proof.
split=> [s g a dt mx my mz R0 C0 hmeans|s a p pos dt R0 C0] /=.
  have := update6_noiseless g dt R0 hmeans.
  case: kalman_filter_6dof.update => s' r /= h /h [].
  by rewrite C0 default_C_rows => /array_col2 [-> ->].
have := updateV_noiseless a p pos dt R0.
case: kalman_filter_velocity.update => s' r /= h /h [].
rewrite C0 [kalman_filter_velocity.C _]/= array_eye2 mul1mx => -> ->.
by rewrite /entry /kalman_filter_velocity.measurement mxE.
Qed.

End Noiseless.

(** ** When a step returns *)

Section Returns.

Variable F : realFieldType.
Variable np : numpy F.

Lemma update6_returns (s : kalman_filter_6dof.t F) gyroscope accelerometer
    dt :
  kalman_filter_6dof.history_ok s ->
  kalman_filter_6dof.innovation_cov s dt \in unitmx ->
  is_ok (kalman_filter_6dof.update np gyroscope accelerometer dt s).2.
Proof. by move=> ok Su; rewrite update6E /= (accel_means_push6 _ ok) Su. Qed.

Lemma updateV_returns (s : kalman_filter_velocity.t F) accelerometer pitch
    position dt :
  kalman_filter_velocity.history_ok s -> dt != 0 ->
  kalman_filter_velocity.innovation_cov s dt \in unitmx ->
  is_ok (kalman_filter_velocity.update np accelerometer pitch position
           dt s).2.
Proof.
move=> ok /negPf dt0 Su.
by rewrite updateVE /= (accel_means_pushV _ ok) dt0 Su.
Qed.

Lemma pd1 n : pd (1%:M : 'M[F]_n).
Proof.
by rewrite -diag_const_mx; apply: pd_diag => j; rewrite mxE ltr01.
Qed.

Lemma pd_congr_rows m n (A : 'M[F]_n) (B : 'M[F]_(m, n)) :
  pd A -> B *m B^T = 1%:M -> pd (B *m A *m B^T).
Proof.
move=> pdA orth v vN0; rewrite quad_congr; apply: pdA.
apply: contra_neq vN0 => vB.
by rewrite -[v]mulmx1 -orth mulmxA vB mul0mx.
Qed.

Lemma default_C_orth :
  kalman_filter_6dof.C (kalman_filter_6dof.init F)
    *m (kalman_filter_6dof.C (kalman_filter_6dof.init F))^T = 1%:M.
Proof.
apply/matrixP=> i j; rewrite /= !mxE !big_ord_recl big_ord0 !mxE /= addr0.
case: i => [[|[|i]] ?] //; case: j => [[|[|j]] ?] //=;
  by rewrite ?mulr0 ?mul0r ?mulr1 ?addr0 ?add0r.
Qed.

(** The covariance predicted from the constructor's [P] and [Q] is
    positive definite. *)
Lemma pd_predicted n (A P0 Q0 : 'M[F]_n) (q : F) :
  psd P0 -> 0 < q -> Q0 = q *: 1%:M -> pd (A *m (P0 *m A^T) + Q0).
Proof.
move=> psdP q0 ->; rewrite mulmxA; apply: pdD; first exact: psd_congr.
exact/pdZ/pd1.
Qed.

Lemma noiseless6_unit (s : kalman_filter_6dof.t F) dt :
  kalman_filter_6dof.P s = kalman_filter_6dof.P (kalman_filter_6dof.init F) ->
  kalman_filter_6dof.Q s = kalman_filter_6dof.Q (kalman_filter_6dof.init F) ->
  kalman_filter_6dof.C s = kalman_filter_6dof.C (kalman_filter_6dof.init F) ->
  kalman_filter_6dof.R s = 0 ->
  kalman_filter_6dof.innovation_cov s dt \in unitmx.
Proof.
move=> eP eQ eC eR; rewrite /kalman_filter_6dof.innovation_cov eP eQ eC eR.
rewrite addr0 mulmxA; apply/pd_unitmx/pd_congr_rows/default_C_orth.
apply: (@pd_predicted _ _ _ _ ((10 ^+ 6)^-1)).
- by have [] := covariance_ok_init6 F.
- by rewrite invr_gt0 exprn_gt0.
- by rewrite /= array_eye4.
Qed.

Lemma noiselessV_unit (s : kalman_filter_velocity.t F) dt :
  kalman_filter_velocity.P s
    = kalman_filter_velocity.P (kalman_filter_velocity.init F) ->
  kalman_filter_velocity.Q s
    = kalman_filter_velocity.Q (kalman_filter_velocity.init F) ->
  kalman_filter_velocity.C s
    = kalman_filter_velocity.C (kalman_filter_velocity.init F) ->
  kalman_filter_velocity.R s = 0 ->
  kalman_filter_velocity.innovation_cov s dt \in unitmx.
Proof.
move=> eP eQ eC eR.
rewrite /kalman_filter_velocity.innovation_cov eP eQ eC eR addr0.
rewrite [kalman_filter_velocity.C _]/= array_eye2 trmx1 mulmx1 mul1mx.
apply/pd_unitmx; apply: (@pd_predicted _ _ _ _ ((10 ^+ 4)^-1)).
- by have [] := covariance_ok_initV F.
- by rewrite invr_gt0 exprn_gt0.
- by rewrite /= array_eye2.
Qed.

End Returns.

Lemma noiseless6_returns :
  is_ok (kalman_filter_6dof.update np_rat (0, 0, 0) (0, 0, 1) 1
           kalman_filter_6dof.noiseless).2.
Proof.
apply: update6_returns; first by [].
exact: (@noiseless6_unit rat kalman_filter_6dof.noiseless 1
          erefl erefl erefl erefl).
Qed.

Lemma noiselessV_returns :
  is_ok (kalman_filter_velocity.update np_rat (0, 0, 1) 0 1 1
           kalman_filter_velocity.noiseless).2.
Proof.
apply: updateV_returns; [by [] | by [] |].
exact: (@noiselessV_unit rat kalman_filter_velocity.noiseless 1
          erefl erefl erefl erefl).
Qed.



(** X4, the witness: a step of the orientation filter with [R = 0]. *)
Lemma noiseless_update_matches_measurement_witness :
  let s := kalman_filter_6dof.noiseless in
  let means : rat * rat * rat := ((0 + 0) / 2, (0 + 0) / 2, (0 + 1) / 2) in
  let: (s', r) :=
    kalman_filter_6dof.update np_rat (0, 0, 0) (0, 0, 1) 1 s in
  is_ok r
  /\ kalman_filter_6dof.C s *m kalman_filter_6dof.x s'
     = kalman_filter_6dof.measurement np_rat means.
Proof.
move=> s means.
have ok := noiseless6_returns.
have hmeans :
  kalman_filter_6dof.accel_means
    (kalman_filter_6dof.push_history (0, 0, 1) s) = Some means.
  exact: (@accel_means_push6 rat s (0, 0, 1) isT).
have eq := proj1 (noiseless_update_matches_measurement np_rat) s
             (0, 0, 0) (0, 0, 1) 1 means erefl hmeans.
move: ok eq.
move: (kalman_filter_6dof.update _ _ _ _ _) => [s' r] /= ok eq.
by split; [exact: ok | apply: eq; exact: ok].
Defined.

(** X5, the witness: a step of the velocity filter with [R = 0]. *)
Lemma noiseless_update_returns_measurement_witness :
  (kalman_filter_velocity.update np_rat (0, 0, 1) 0 1 1
     kalman_filter_velocity.noiseless).2
  = Ok ((1 - kalman_filter_velocity.current_position
               kalman_filter_velocity.noiseless) / 1).
Proof.
exact: (proj2 (noiseless_update_returns_measurement np_rat)
          kalman_filter_velocity.noiseless (0, 0, 1) 0 1 1
          erefl erefl noiselessV_returns).
Defined.

(** ** What batch analysis reads *)

Section DatasetAccess.

Variable F : realFieldType.
Variable np : numpy F.
Variable UnivariateSpline : spline_fit F.

(** X6.  A dataset with fewer sub-arrays than the filter reads (seven
    for the orientation filter, six for the velocity filter) makes
    [analyze_dataset] raise IndexError before anything else happens: the
    object is left as it was, not even reset. *)
Theorem analyze_dataset_missing_channel :
  (forall (dataset : seq (seq F)) (s : kalman_filter_6dof.t F),
     (size dataset < 7)%N ->
     kalman_filter_6dof.analyze_dataset np UnivariateSpline dataset s
       = (s, Raise IndexError))
  /\
  (forall (dataset : seq (seq F)) (s : kalman_filter_velocity.t F),
     (size dataset < 6)%N ->
     kalman_filter_velocity.analyze_dataset np dataset s
       = (s, Raise IndexError)).
Proof.
split=> dataset s.
  rewrite /kalman_filter_6dof.analyze_dataset.
  by do 7![case: dataset => [|? dataset] //; rewrite bindE_lift0 /=].
rewrite /kalman_filter_velocity.analyze_dataset.
by do 6![case: dataset => [|? dataset] //; rewrite bindE_lift0 /=].
Qed.

Lemma updateV_item0 (s : kalman_filter_velocity.t F) a a' pitch position
    dt :
  item0 a = item0 a' ->
  kalman_filter_velocity.update np a pitch position dt s
  = kalman_filter_velocity.update np a' pitch position dt s.
Proof.
case: a => [[a0 a1] a2]; case: a' => [[b0 b1] b2].
by rewrite /item0 /= => ->; rewrite !updateVE.
Qed.

Lemma analyze_stepV_first time_arr a ax b ay c az p pitch q position
    a' b' c' p' q' i acc (s : kalman_filter_velocity.t F) :
  (0 < i)%N ->
  kalman_filter_velocity.analyze_step np time_arr (a :: ax) (b :: ay)
    (c :: az) (p :: pitch) (q :: position) i acc s
  = kalman_filter_velocity.analyze_step np time_arr (a' :: ax) (b' :: ay)
      (c' :: az) (p' :: pitch) (q' :: position) i acc s.
Proof.
move=> i0; rewrite /kalman_filter_velocity.analyze_step.
by rewrite (getitem_cons a a') // (getitem_cons b b') //
           (getitem_cons c c') // (getitem_cons p p') //
           (getitem_cons q q').
Qed.

Lemma analyze_step6_first time_arr a1 gx a2 gy a3 gz a4 ax a5 ay a6 az
    b1 b2 b3 b4 b5 b6 i acc (s : kalman_filter_6dof.t F) :
  (0 < i)%N ->
  kalman_filter_6dof.analyze_step np time_arr (a1 :: gx) (a2 :: gy)
    (a3 :: gz) (a4 :: ax) (a5 :: ay) (a6 :: az) i acc s
  = kalman_filter_6dof.analyze_step np time_arr (b1 :: gx) (b2 :: gy)
      (b3 :: gz) (b4 :: ax) (b5 :: ay) (b6 :: az) i acc s.
Proof.
move=> i0; rewrite /kalman_filter_6dof.analyze_step.
by rewrite (getitem_cons a1 b1) // (getitem_cons a2 b2) //
           (getitem_cons a3 b3) // (getitem_cons a4 b4) //
           (getitem_cons a5 b5) // (getitem_cons a6 b6).
Qed.

(** X7.  Batch analysis never reads the first sample of a sensor
    channel: only the first timestamp is used.  Replacing the first
    entry of every channel other than the time axis changes neither the
    outcome nor the object the call leaves. *)
Theorem analyze_dataset_ignores_first_sample :
  (forall time_arr a1 gy_x a2 gy_y a3 gy_z a4 ac_x a5 ac_y a6 ac_z
          b1 b2 b3 b4 b5 b6 (s : kalman_filter_6dof.t F),
     kalman_filter_6dof.analyze_dataset np UnivariateSpline
       [:: time_arr; a1 :: gy_x; a2 :: gy_y; a3 :: gy_z;
           a4 :: ac_x; a5 :: ac_y; a6 :: ac_z] s
     = kalman_filter_6dof.analyze_dataset np UnivariateSpline
         [:: time_arr; b1 :: gy_x; b2 :: gy_y; b3 :: gy_z;
             b4 :: ac_x; b5 :: ac_y; b6 :: ac_z] s)
  /\
  (forall time_arr a1 ac_x a2 ac_y a3 ac_z a4 pitch a5 position
          b1 b2 b3 b4 b5 (s : kalman_filter_velocity.t F),
     kalman_filter_velocity.analyze_dataset np
       [:: time_arr; a1 :: ac_x; a2 :: ac_y; a3 :: ac_z;
           a4 :: pitch; a5 :: position] s
     = kalman_filter_velocity.analyze_dataset np
         [:: time_arr; b1 :: ac_x; b2 :: ac_y; b3 :: ac_z;
             b4 :: pitch; b5 :: position] s).
Proof.
split=> [time_arr a1 gx a2 gy a3 gz a4 ax a5 ay a6 az b1 b2 b3 b4 b5 b6 s
        |time_arr a1 ax a2 ay a3 az a4 pitch a5 pos b1 b2 b3 b4 b5 s].
  rewrite !analyze6E /kalman_filter_6dof.kalman_pass !bind_reset6.
  rewrite (@for_each_ext _ _ _ _
             (kalman_filter_6dof.analyze_step np time_arr (b1 :: gx)
                (b2 :: gy) (b3 :: gz) (b4 :: ax) (b5 :: ay) (b6 :: az))) //.
  move=> i acc st; rewrite mem_iota => /andP [i0 _].
  exact: analyze_step6_first.
rewrite !analyzeVE /kalman_filter_velocity.kalman_pass !bind_resetV.
apply: for_each_ext => i acc st; rewrite mem_iota => /andP [i0 _].
exact: analyze_stepV_first.
Qed.

(** X8.  Batch analysis with the velocity filter does not use the values
    of the y and z acceleration channels, only their lengths: two
    datasets that differ in these two channels only, each channel of the
    same length in both, give the same outcome and leave the same
    object. *)
Theorem velocity_analyze_ignores_y_z time_arr ac_x ac_y ac_z ac_y' ac_z'
    pitch position (s : kalman_filter_velocity.t F) :
  size ac_y = size ac_y' -> size ac_z = size ac_z' ->
  kalman_filter_velocity.analyze_dataset np
    [:: time_arr; ac_x; ac_y; ac_z; pitch; position] s
  = kalman_filter_velocity.analyze_dataset np
      [:: time_arr; ac_x; ac_y'; ac_z'; pitch; position] s.
Proof.
move=> ey ez.
rewrite !analyzeVE /kalman_filter_velocity.kalman_pass !bind_resetV.
apply: for_each_ext => i acc st _.
rewrite /kalman_filter_velocity.analyze_step.
do 3![rewrite !bindE_lift0; case: (getitem _ _) => [?|e]; last by []].
rewrite !bindE_lift0 !(getitemE ac_y) !(getitemE ac_y') ey.
case: ltnP => [_|_]; last by [].
rewrite !bindE_lift0 !(getitemE ac_z) !(getitemE ac_z') ez.
case: ltnP => [_|_]; last by [].
do 2![rewrite !bindE_lift0; case: (getitem _ _) => [?|e]; last by []].
by congr (bind _ _ _); apply: updateV_item0.
Qed.

End DatasetAccess.

(** ** Timestamps, first outputs and short channels *)

Section TimeAxis.

Variable F : realFieldType.
Variable np : numpy F.
Variable UnivariateSpline : spline_fit F.

Lemma shifted_step (a b c : F) : a + c - (b + c) = a - b.
Proof. by rewrite [b + c]addrC addrKA. Qed.

Lemma analyze_stepV_shift c time_arr ac_x ac_y ac_z pitch position i acc
    (s : kalman_filter_velocity.t F) :
  kalman_filter_velocity.analyze_step np [seq t + c | t <- time_arr]
    ac_x ac_y ac_z pitch position i acc s
  = kalman_filter_velocity.analyze_step np time_arr
      ac_x ac_y ac_z pitch position i acc s.
Proof.
rewrite /kalman_filter_velocity.analyze_step !bindE_lift0 !getitem_map.
case: (getitem time_arr i) => [ti|e]; last by [].
rewrite !bindE_lift0 ?getitem_map.
case: (getitem time_arr (i - 1)) => [tp|e]; last by [].
by rewrite shifted_step.
Qed.

Lemma analyze_step6_shift c time_arr gy_x gy_y gy_z ac_x ac_y ac_z i acc
    (s : kalman_filter_6dof.t F) :
  kalman_filter_6dof.analyze_step np [seq t + c | t <- time_arr]
    gy_x gy_y gy_z ac_x ac_y ac_z i acc s
  = kalman_filter_6dof.analyze_step np time_arr
      gy_x gy_y gy_z ac_x ac_y ac_z i acc s.
Proof.
rewrite /kalman_filter_6dof.analyze_step !bindE_lift0 !getitem_map.
case: (getitem time_arr i) => [ti|e]; last by [].
rewrite !bindE_lift0 ?getitem_map.
case: (getitem time_arr (i - 1)) => [tp|e]; last by [].
by rewrite shifted_step.
Qed.

(** X9.  The filters see the timestamps through their differences only:
    adding a constant to every timestamp changes neither the outcome of
    the velocity filter's [analyze_dataset] nor that of the orientation
    filter's Kalman pass (whose result then goes to the spline together
    with the time axis itself). *)
Theorem analysis_ignores_time_origin :
  (forall c time_arr gy_x gy_y gy_z ac_x ac_y ac_z
          (s : kalman_filter_6dof.t F),
     kalman_filter_6dof.kalman_pass np [seq t + c | t <- time_arr]
       gy_x gy_y gy_z ac_x ac_y ac_z s
     = kalman_filter_6dof.kalman_pass np time_arr
         gy_x gy_y gy_z ac_x ac_y ac_z s)
  /\
  (forall c time_arr ac_x ac_y ac_z pitch position
          (s : kalman_filter_velocity.t F),
     kalman_filter_velocity.analyze_dataset np
       [:: [seq t + c | t <- time_arr]; ac_x; ac_y; ac_z; pitch; position] s
     = kalman_filter_velocity.analyze_dataset np
         [:: time_arr; ac_x; ac_y; ac_z; pitch; position] s).
Proof.
split=> [c time_arr gx gy gz ax ay az s|c time_arr ax ay az pitch pos s].
  rewrite /kalman_filter_6dof.kalman_pass !bind_reset6 size_map.
  by apply: for_each_ext => i acc st _; apply: analyze_step6_shift.
rewrite !analyzeVE /kalman_filter_velocity.kalman_pass !bind_resetV size_map.
by apply: for_each_ext => i acc st _; apply: analyze_stepV_shift.
Qed.

(** A loop that appends one value a turn extends its list. *)
Lemma for_each_extends S (idxs : seq nat) (body : nat -> seq F -> M S (seq F)) :
  (forall i acc st st' acc',
     body i acc st = (st', Ok acc') -> exists v, acc' = rcons acc v) ->
  forall acc st st' acc',
    for_each idxs acc body st = (st', Ok acc') ->
    exists2 tl, acc' = acc ++ tl & size tl = size idxs.
Proof.
move=> step; elim: idxs => [|i idxs IH] acc st st' acc' /=.
  by case=> _ <-; exists [::]; rewrite ?cats0.
rewrite /bind; case E: (body i acc st) => [st1 [acc1|e]] //.
have [v ->] := step _ _ _ _ _ E => /IH [tl -> sz].
by exists (v :: tl); rewrite /= ?sz // -cats1 -catA.
Qed.

Lemma analyze_stepV_rcons time_arr ac_x ac_y ac_z pitch position i acc
    (s s' : kalman_filter_velocity.t F) acc' :
  kalman_filter_velocity.analyze_step np time_arr ac_x ac_y ac_z pitch
    position i acc s = (s', Ok acc') ->
  exists v, acc' = rcons acc v.
Proof.
rewrite /kalman_filter_velocity.analyze_step.
do 7![rewrite bindE_lift0; case: (getitem _ _) => [?|e]; last by []].
rewrite /bind; case: (kalman_filter_velocity.update _ _ _ _ _ _)
  => [s1 [v|e]] //=.
by case=> _ <-; exists v.
Qed.

(** X10.  The list the velocity filter's [analyze_dataset] returns always
    starts with the literal 0 it was initialised with, not with an
    estimate, and has [max 1 n] entries for [n] timestamps: on an empty
    time axis the call returns the one-element list [[0]]. *)
Theorem velocity_analysis_starts_at_zero time_arr ac_x ac_y ac_z pitch
    position (s s' : kalman_filter_velocity.t F) speed_arr :
  kalman_filter_velocity.analyze_dataset np
    [:: time_arr; ac_x; ac_y; ac_z; pitch; position] s = (s', Ok speed_arr) ->
  speed_arr = 0 :: behead speed_arr
  /\ size speed_arr = maxn 1 (size time_arr).
Proof.
rewrite analyzeVE /kalman_filter_velocity.kalman_pass bind_resetV.
case/(for_each_extends (@analyze_stepV_rcons _ _ _ _ _ _))=> tl -> sz.
by rewrite /= sz size_iota maxnE add1n.
Qed.

End TimeAxis.

(** ** Channels shorter than the time axis *)

Section ShortChannels.

Variable F : realFieldType.
Variable np : numpy F.
Variable UnivariateSpline : spline_fit F.

Lemma iota_bounds (i n : nat) :
  i \in iota 1 (n - 1) -> (0 < i < n)%N.
Proof.
rewrite mem_iota => /andP [i0 it]; rewrite i0 /=.
by move: it i0; case: n => [|n]; [case: i | rewrite subn1 add1n].
Qed.

Lemma analyze_step6_ok_at time_arr gy_x gy_y gy_z ac_x ac_y ac_z i acc
    (s : kalman_filter_6dof.t F) :
  (0 < i < size time_arr)%N ->
  all (fun channel : seq F => i < size channel)%N
      [:: gy_x; gy_y; gy_z; ac_x; ac_y; ac_z] ->
  kalman_filter_6dof.loop_invariant s ->
  exists s' acc',
    kalman_filter_6dof.analyze_step np time_arr gy_x gy_y gy_z
      ac_x ac_y ac_z i acc s = (s', Ok acc')
    /\ kalman_filter_6dof.loop_invariant s'.
Proof.
case/andP=> i0 it /and5P [lgx lgy lgz lax /andP [lay /andP [laz _]]].
case=> okH okP okN; rewrite /kalman_filter_6dof.analyze_step.
rewrite (getitem_nth 0 it) bindE_lift0.
rewrite subn1 (getitem_nth 0 (leq_ltn_trans (leq_pred i) it)) bindE_lift0.
rewrite (getitem_nth 0 lgx) bindE_lift0 (getitem_nth 0 lgy) bindE_lift0.
rewrite (getitem_nth 0 lgz) bindE_lift0 (getitem_nth 0 lax) bindE_lift0.
rewrite (getitem_nth 0 lay) bindE_lift0 (getitem_nth 0 laz) bindE_lift0.
set g := (_, _, _); set a := (_, _, _); set dt := _ - _.
have := update6_covariance np g a dt okP okN.
have := config_update6 np s g a dt.
have := history_ok_update6 np g a dt okH.
rewrite /bind; case: (kalman_filter_6dof.update _ _ _ _ _)
  => [s' [rp|e]] /= okH'.
  case=> eQ eR _ [okP' _]; eexists; eexists; split; first by [].
  by split=> //; rewrite eQ eR.
by move=> _ [_ /(_ okH)].
Qed.

Lemma analyze_step6_bad time_arr gy_x gy_y gy_z ac_x ac_y ac_z i acc
    (s : kalman_filter_6dof.t F) :
  (0 < i < size time_arr)%N ->
  has (fun channel : seq F => size channel <= i)%N
      [:: gy_x; gy_y; gy_z; ac_x; ac_y; ac_z] ->
  kalman_filter_6dof.analyze_step np time_arr gy_x gy_y gy_z
    ac_x ac_y ac_z i acc s = (s, Raise IndexError).
Proof.
case/andP=> i0 it; rewrite [has _ _]/= !(leqNgt (size _) i).
rewrite /kalman_filter_6dof.analyze_step.
rewrite (getitem_nth 0 it) bindE_lift0.
rewrite subn1 (getitem_nth 0 (leq_ltn_trans (leq_pred i) it)) bindE_lift0.
do 6![rewrite (getitemE _ i); case: ltnP => [_|_];
      rewrite bindE_lift0; last by []].
by [].
Qed.

Lemma analyze_stepV_ok_at time_arr ac_x ac_y ac_z pitch position i acc
    (s : kalman_filter_velocity.t F) :
  (0 < i < size time_arr)%N ->
  nth 0 time_arr i != nth 0 time_arr (i - 1) ->
  all (fun channel : seq F => i < size channel)%N
      [:: ac_x; ac_y; ac_z; pitch; position] ->
  kalman_filter_velocity.loop_invariant s ->
  exists s' acc',
    kalman_filter_velocity.analyze_step np time_arr ac_x ac_y ac_z
      pitch position i acc s = (s', Ok acc')
    /\ kalman_filter_velocity.loop_invariant s'.
Proof.
case/andP=> i0 it dtN0 /and5P [lax lay laz lp /andP [lpos _]].
case=> okH okP okN; rewrite /kalman_filter_velocity.analyze_step.
rewrite (getitem_nth 0 it) bindE_lift0.
move: dtN0; rewrite subn1 => dtN0.
rewrite (getitem_nth 0 (leq_ltn_trans (leq_pred i) it)) bindE_lift0.
rewrite (getitem_nth 0 lax) bindE_lift0 (getitem_nth 0 lay) bindE_lift0.
rewrite (getitem_nth 0 laz) bindE_lift0 (getitem_nth 0 lp) bindE_lift0.
rewrite (getitem_nth 0 lpos) bindE_lift0.
set a := (_, _, _); set dt := _ - _; set p := nth _ pitch _.
set pos := nth _ position _.
have dt0 : dt != 0 by rewrite subr_eq0.
have := updateV_covariance np a p pos dt okP okN.
have := config_updateV np s a p pos dt.
have := history_ok_updateV np a p pos dt okH.
rewrite /bind; case: (kalman_filter_velocity.update _ _ _ _ _ _)
  => [s' [rp|e]] /= okH'.
  case=> _ eQ _ eR _ [okP' _]; eexists; eexists; split; first by [].
  by split=> //; rewrite eQ eR.
by move=> _ [_ /(_ okH dt0)].
Qed.

Lemma analyze_stepV_bad time_arr ac_x ac_y ac_z pitch position i acc
    (s : kalman_filter_velocity.t F) :
  (0 < i < size time_arr)%N ->
  has (fun channel : seq F => size channel <= i)%N
      [:: ac_x; ac_y; ac_z; pitch; position] ->
  kalman_filter_velocity.analyze_step np time_arr ac_x ac_y ac_z
    pitch position i acc s = (s, Raise IndexError).
Proof.
case/andP=> i0 it; rewrite [has _ _]/= !(leqNgt (size _) i).
rewrite /kalman_filter_velocity.analyze_step.
rewrite (getitem_nth 0 it) bindE_lift0.
rewrite subn1 (getitem_nth 0 (leq_ltn_trans (leq_pred i) it)) bindE_lift0.
do 5![rewrite (getitemE _ i); case: ltnP => [_|_];
      rewrite bindE_lift0; last by []].
by [].
Qed.

(** Some index of the loop is past the end of a channel. *)
Lemma short_channel_index (time_arr : seq F) (channels : seq (seq F)) :
  (1 < size time_arr)%N -> ~~ channels_cover time_arr channels ->
  has (fun i => has (fun channel : seq F => size channel <= i)%N channels)
      (iota 1 (size time_arr - 1)).
Proof.
move=> n2; rewrite /channels_cover -has_predC => /hasP [ch chin /= short].
apply/hasP; exists (size time_arr - 1)%N.
  by rewrite mem_iota subn_gt0 n2 /= add1n subn1 prednK // ltnW.
apply/hasP; exists ch => //.
by rewrite subn1 -ltnS prednK; [apply: ltnW | rewrite ltnNge].
Qed.

(** X11.  Channels of mismatched length are not rejected up front.  When
    a sensor channel is shorter than the time axis (two timestamps or
    more, well-formed noise matrices and, for the velocity filter, no
    repeated timestamp), [analyze_dataset] processes the samples before
    the end of the shortest channel and then raises IndexError: no
    result is returned. *)
Theorem analyze_dataset_short_channel :
  (forall time_arr gy_x gy_y gy_z ac_x ac_y ac_z
          (s : kalman_filter_6dof.t F),
     noise_ok (kalman_filter_6dof.Q s) (kalman_filter_6dof.R s) ->
     (1 < size time_arr)%N ->
     ~~ channels_cover time_arr [:: gy_x; gy_y; gy_z; ac_x; ac_y; ac_z] ->
     (kalman_filter_6dof.analyze_dataset np UnivariateSpline
        [:: time_arr; gy_x; gy_y; gy_z; ac_x; ac_y; ac_z] s).2
     = Raise IndexError)
  /\
  (forall time_arr ac_x ac_y ac_z pitch position
          (s : kalman_filter_velocity.t F),
     noise_ok (kalman_filter_velocity.Q s) (kalman_filter_velocity.R s) ->
     (1 < size time_arr)%N -> steps_nonzero time_arr ->
     ~~ channels_cover time_arr [:: ac_x; ac_y; ac_z; pitch; position] ->
     (kalman_filter_velocity.analyze_dataset np
        [:: time_arr; ac_x; ac_y; ac_z; pitch; position] s).2
     = Raise IndexError).
Proof.
split=> [time_arr gx gy gz ax ay az s okN n2 short
        |time_arr ax ay az pitch pos s okN n2 /allP steps short].
  have hbad := short_channel_index n2 short.
  rewrite analyze6E /kalman_filter_6dof.kalman_pass bind_reset6.
  have raised :
    (for_each (iota 1 (size time_arr - 1)) ([:: 0], [:: 0])
       (kalman_filter_6dof.analyze_step np time_arr gx gy gz ax ay az)
       (kalman_filter_6dof.reset s).1).2 = Raise IndexError.
    apply: (@for_each_raise _ _ (@kalman_filter_6dof.loop_invariant F)
              _ IndexError _ _ hbad); last exact: inv6_reset.
      move=> i acc st /iota_bounds bounds; rewrite -all_predC => good inv.
      apply: analyze_step6_ok_at => //.
      by apply: sub_all good => ch /=; rewrite -ltnNge.
    by move=> i acc st /iota_bounds bounds bad _; apply: analyze_step6_bad.
  by move: raised; case: (for_each _ _ _ _) => [s' r] /= ->.
have hbad := short_channel_index n2 short.
rewrite analyzeVE /kalman_filter_velocity.kalman_pass bind_resetV.
apply: (@for_each_raise _ _ (@kalman_filter_velocity.loop_invariant F)
          _ IndexError _ _ hbad); last exact: invV_reset.
  move=> i acc st iin; rewrite -all_predC => good inv.
  apply: analyze_stepV_ok_at => //; [exact: iota_bounds | exact: steps |].
  by apply: sub_all good => ch /=; rewrite -ltnNge.
by move=> i acc st /iota_bounds bounds bad _; apply: analyze_stepV_bad.
Qed.

End ShortChannels.

(** ** Baseline removal *)

Section Baseline.

Variable F : realFieldType.

Lemma sum_shift (c : F) (l : seq F) :
  \sum_(v <- l) (v + c) = \sum_(v <- l) v + c *+ size l.
Proof.
elim: l => [|h t IH]; first by rewrite !big_nil mulr0n addr0.
by rewrite !big_cons IH /= mulrS addrACA.
Qed.

Lemma np_mean_shift (c : F) (l : seq F) :
  np_mean [seq v + c | v <- l] =
    if np_mean l is Num m then Num (m + c) else NaN.
Proof.
case: l => [|h t] //; rewrite /np_mean -/(map _ (h :: t)) big_map size_map.
rewrite sum_shift mulrDl -(mulr_natr c) mulfK //.
by rewrite pnatr_eq0.
Qed.

(** X12.  [zero] does not see a constant offset of its input: adding the
    same number to every sample gives the same zeroed list (the bias is
    part of the baseline that is subtracted).  This holds for every
    length, the lists of at most 100 samples included, whose zeroed
    samples are all nan. *)
Theorem zero_ignores_offset (c : F) (arr : seq F) :
  kalman_filter_6dof.zero [seq v + c | v <- arr] = kalman_filter_6dof.zero arr.
Proof.
rewrite /kalman_filter_6dof.zero /slice -map_take -map_drop np_mean_shift.
rewrite -map_comp; apply: eq_map => v /=.
by case: (np_mean _) => [m|] //=; rewrite shifted_step.
Qed.

(** X13.  On a list of more than 100 samples [zero] subtracts one and
    the same number from every sample, and that number makes the samples
    of the calibration window (indices 100 to 199, or to the end of a
    shorter list) sum to zero. *)
Theorem zero_centres_window (arr : seq F) :
  (100 < size arr)%N ->
  let window := slice 100 200 arr in
  let baseline := (\sum_(w <- window) w) / (size window)%:R in
  kalman_filter_6dof.zero arr = [seq Num (v - baseline) | v <- arr]
  /\ \sum_(w <- window) (w - baseline) = 0.
Proof.
move=> long window baseline.
have wN0 : (0 < size window)%N.
  rewrite /window /slice size_drop size_take subn_gt0.
  by case: (ltnP 200 (size arr)).
have mean : np_mean window = Num baseline.
  by rewrite /baseline; case: (window) wN0.
split; first by rewrite /kalman_filter_6dof.zero -/window mean.
rewrite (sum_shift (- baseline)) mulNrn.
rewrite /baseline -(mulr_natr (_ / _)) divfK ?subrr //.
by rewrite pnatr_eq0 -lt0n.
Qed.

End Baseline.

(** ** Batch analysis is causal *)

Section Causality.

Variable F : realFieldType.
Variable np : numpy F.

Lemma getitem_take (l : seq F) (k i : nat) :
  (i < k)%N -> getitem (take k l) i = getitem l i.
Proof.
move=> ik; rewrite !getitemE size_take.
case: (ltnP k (size l)) => [kl|lk]; last by rewrite take_oversize.
by rewrite ik (ltn_trans ik kl) nth_take.
Qed.

Lemma analyze_stepV_take k time_arr ac_x ac_y ac_z pitch position i acc
    (s : kalman_filter_velocity.t F) :
  (i < k)%N ->
  kalman_filter_velocity.analyze_step np (take k time_arr) (take k ac_x)
    (take k ac_y) (take k ac_z) (take k pitch) (take k position) i acc s
  = kalman_filter_velocity.analyze_step np time_arr ac_x ac_y ac_z
      pitch position i acc s.
Proof.
move=> ik; rewrite /kalman_filter_velocity.analyze_step.
rewrite !(getitem_take _ ik) (@getitem_take time_arr k (i - 1)) //.
exact: (leq_ltn_trans (leq_subr 1 i) ik).
Qed.

(** X14.  The velocity filter's batch analysis is causal: the first [k]
    speeds of a run that returns are exactly what [analyze_dataset]
    returns on the dataset cut after its first [k] samples.  No output
    depends on later samples. *)
Theorem velocity_analysis_is_causal k time_arr ac_x ac_y ac_z pitch position
    (s s' : kalman_filter_velocity.t F) speed_arr :
  (0 < k)%N ->
  kalman_filter_velocity.analyze_dataset np
    [:: time_arr; ac_x; ac_y; ac_z; pitch; position] s = (s', Ok speed_arr) ->
  exists s'',
    kalman_filter_velocity.analyze_dataset np
      [:: take k time_arr; take k ac_x; take k ac_y; take k ac_z;
          take k pitch; take k position] s
    = (s'', Ok (take k speed_arr)).
Proof.
move=> k0; rewrite !analyzeVE /kalman_filter_velocity.kalman_pass.
rewrite !bind_resetV.
set n := size time_arr; set m := size (take k time_arr).
set st := (kalman_filter_velocity.reset s).1.
have mk : (m <= k)%N by rewrite /m size_take; case: ltnP.
have mn : (m <= n)%N by rewrite /m size_take -/n; case: ltnP => // /ltnW.
have idxsE : iota 1 (n - 1) = iota 1 (m - 1) ++ iota (1 + (m - 1)) (n - m).
  rewrite -iotaD; congr (iota 1 _).
  case: (posnP m) => [m0|mpos]; last by rewrite addnBAC // subnKC.
  have n0 : n = 0%N.
    by move: m0 k0; rewrite /m size_take -/n; case: ltnP => // _ ->.
  by rewrite m0 n0.
rewrite idxsE for_each_cat.
have -> :
  for_each (iota 1 (m - 1)) [:: 0]
    (kalman_filter_velocity.analyze_step np (take k time_arr) (take k ac_x)
       (take k ac_y) (take k ac_z) (take k pitch) (take k position)) st
  = for_each (iota 1 (m - 1)) [:: 0]
      (kalman_filter_velocity.analyze_step np time_arr ac_x ac_y ac_z
         pitch position) st.
  apply: for_each_ext => i acc st0 /iota_bounds /andP [_ im].
  by apply: analyze_stepV_take; apply: leq_trans mk.
case E1: (for_each (iota 1 (m - 1)) _ _ _) => [s1 [acc1|e]] // E2.
exists s1; congr (_, Ok _).
have [tl1 acc1E sz1] :=
  for_each_extends (@analyze_stepV_rcons _ np _ _ _ _ _ _) E1.
have [tl2 -> sz2] :=
  for_each_extends (@analyze_stepV_rcons _ np _ _ _ _ _ _) E2.
have szacc : size acc1 = (m - 1).+1 by rewrite acc1E /= sz1 size_iota.
move: sz2 szacc; rewrite size_iota /m size_take -/n.
case: ltnP => [kn|nk] sz2 szacc.
  by rewrite take_size_cat // szacc subn1 prednK.
move: sz2; rewrite subnn => /size0nil ->; rewrite cats0 take_oversize //.
rewrite szacc; case: (posnP n) => [->|npos] //.
by rewrite subn1 prednK.
Qed.

End Causality.

(** X6, the witness: the empty dataset. *)
Lemma analyze_dataset_missing_channel_witness :
  kalman_filter_6dof.analyze_dataset np_rat spline_rat [::]
    (kalman_filter_6dof.init rat)
  = (kalman_filter_6dof.init rat, Raise IndexError)
  /\ kalman_filter_velocity.analyze_dataset np_rat [:: [:: 0; 1]]
       (kalman_filter_velocity.init rat)
     = (kalman_filter_velocity.init rat, Raise IndexError).
Proof.
split.
  exact: (proj1 (analyze_dataset_missing_channel np_rat spline_rat) [::]
            (kalman_filter_6dof.init rat) isT).
exact: (proj2 (analyze_dataset_missing_channel np_rat spline_rat)
          [:: [:: 0; 1]] (kalman_filter_velocity.init rat) isT).
Defined.

(** X8, the witness: two datasets that differ in the y and z channels. *)
Lemma velocity_analyze_ignores_y_z_witness :
  kalman_filter_velocity.analyze_dataset np_rat
    [:: [:: 0; 1]; [:: 0; 0]; [:: 0; 0]; [:: 1; 1]; [:: 0; 0]; [:: 0; 1]]
    (kalman_filter_velocity.init rat)
  = kalman_filter_velocity.analyze_dataset np_rat
      [:: [:: 0; 1]; [:: 0; 0]; [:: 5; 7]; [:: 2; 3]; [:: 0; 0]; [:: 0; 1]]
      (kalman_filter_velocity.init rat).
Proof.
exact: (@velocity_analyze_ignores_y_z rat np_rat [:: 0; 1] [:: 0; 0]
          [:: 0; 0] [:: 1; 1] [:: 5; 7] [:: 2; 3] [:: 0; 0] [:: 0; 1]
          (kalman_filter_velocity.init rat) erefl erefl).
Defined.

Lemma two_samples_run :
  exists s' speed_arr,
    kalman_filter_velocity.analyze_dataset np_rat
      [:: [:: 0; 1]; [:: 0; 0]; [:: 0; 0]; [:: 1; 1]; [:: 0; 0]; [:: 0; 1]]
      (kalman_filter_velocity.init rat) = (s', Ok speed_arr).
Proof.
have [s' [speed_arr E]] :=
  @kalman_passV_ok rat np_rat [:: 0; 1] [:: 0; 0] [:: 0; 0] [:: 1; 1]
    [:: 0; 0] [:: 0; 1] (kalman_filter_velocity.init rat)
    steps_nonzero01 isT isT isT isT isT (noise_ok_initV rat).
by exists s', speed_arr; rewrite analyzeVE.
Qed.

(** X10, the witness: two samples a second apart. *)
Lemma velocity_analysis_starts_at_zero_witness :
  exists s' speed_arr,
    kalman_filter_velocity.analyze_dataset np_rat
      [:: [:: 0; 1]; [:: 0; 0]; [:: 0; 0]; [:: 1; 1]; [:: 0; 0]; [:: 0; 1]]
      (kalman_filter_velocity.init rat) = (s', Ok speed_arr)
    /\ speed_arr = 0 :: behead speed_arr.
Proof.
have [s' [speed_arr E]] := two_samples_run.
exists s', speed_arr; split; first exact: E.
exact: (proj1 (velocity_analysis_starts_at_zero E)).
Defined.

(** X11, the witness: an acceleration channel of one sample under a time
    axis of two. *)
Lemma analyze_dataset_short_channel_witness :
  (kalman_filter_6dof.analyze_dataset np_rat spline_rat
     [:: [:: 0; 1]; [:: 0; 0]; [:: 0; 0]; [:: 0; 0];
         [:: 0]; [:: 0; 0]; [:: 1; 1]]
     (kalman_filter_6dof.init rat)).2 = Raise IndexError
  /\ (kalman_filter_velocity.analyze_dataset np_rat
        [:: [:: 0; 1]; [:: 0]; [:: 0; 0]; [:: 1; 1]; [:: 0; 0]; [:: 0; 1]]
        (kalman_filter_velocity.init rat)).2 = Raise IndexError.
Proof.
split.
  exact: (proj1 (analyze_dataset_short_channel np_rat spline_rat)
            [:: 0; 1] [:: 0; 0] [:: 0; 0] [:: 0; 0] [:: 0] [:: 0; 0]
            [:: 1; 1] (kalman_filter_6dof.init rat)
            (noise_ok_init6 rat) isT isT).
exact: (proj2 (analyze_dataset_short_channel np_rat spline_rat)
          [:: 0; 1] [:: 0] [:: 0; 0] [:: 1; 1] [:: 0; 0] [:: 0; 1]
          (kalman_filter_velocity.init rat)
          (noise_ok_initV rat) isT steps_nonzero01 isT).
Defined.

Lemma at_rest_long : (100 < size at_rest)%N.
Proof. by rewrite size_nseq. Qed.

(** X13, the witness: a list of 150 samples. *)
Lemma zero_centres_window_witness :
  let window := slice 100 200 at_rest in
  let baseline := (\sum_(w <- window) w) / (size window)%:R in
  kalman_filter_6dof.zero at_rest = [seq Num (v - baseline) | v <- at_rest]
  /\ \sum_(w <- window) (w - baseline) = 0.
Proof. exact: (zero_centres_window at_rest_long). Defined.

(** X14, the witness: the first sample of a run over two. *)
Lemma velocity_analysis_is_causal_witness :
  exists s' speed_arr s'',
    kalman_filter_velocity.analyze_dataset np_rat
      [:: [:: 0; 1]; [:: 0; 0]; [:: 0; 0]; [:: 1; 1]; [:: 0; 0]; [:: 0; 1]]
      (kalman_filter_velocity.init rat) = (s', Ok speed_arr)
    /\ kalman_filter_velocity.analyze_dataset np_rat
         [:: take 1 [:: 0; 1]; take 1 [:: 0; 0]; take 1 [:: 0; 0];
             take 1 [:: 1; 1]; take 1 [:: 0; 0]; take 1 [:: 0; 1]]
         (kalman_filter_velocity.init rat) = (s'', Ok (take 1 speed_arr)).
Proof.
have [s' [speed_arr E]] := two_samples_run.
have [s'' E'] := velocity_analysis_is_causal (k := 1) isT E.
by exists s', speed_arr, s''.
Defined.

(** ** What a call leaves behind *)

Section Afterwards.

Variable F : realFieldType.
Variable np : numpy F.
Variable UnivariateSpline : spline_fit F.

(** X15.  No method assigns the coefficient arrays: [reset], [update]
    and [analyze_dataset] leave [Q], [R] and [C] (and the velocity
    filter's [Q_coeff] and [R_coeff]) as they found them, whether they
    return or raise. *)
Theorem coefficient_arrays_never_assigned :
  (forall (s : kalman_filter_6dof.t F) gyroscope accelerometer dt dataset,
     [/\ kalman_filter_6dof.config (kalman_filter_6dof.reset s).1
         = kalman_filter_6dof.config s,
         kalman_filter_6dof.config
           (kalman_filter_6dof.update np gyroscope accelerometer dt s).1
         = kalman_filter_6dof.config s
       & kalman_filter_6dof.config
           (kalman_filter_6dof.analyze_dataset np UnivariateSpline
              dataset s).1
         = kalman_filter_6dof.config s])
  /\
  (forall (s : kalman_filter_velocity.t F) accelerometer pitch position dt
          dataset,
     [/\ kalman_filter_velocity.config (kalman_filter_velocity.reset s).1
         = kalman_filter_velocity.config s,
         kalman_filter_velocity.config
           (kalman_filter_velocity.update np accelerometer pitch position
              dt s).1
         = kalman_filter_velocity.config s
       & kalman_filter_velocity.config
           (kalman_filter_velocity.analyze_dataset np dataset s).1
         = kalman_filter_velocity.config s]).
Proof.
split=> [s g a dt dataset|s a p pos dt dataset]; split=> //.
- exact: config_update6.
- exact: analyze6_config.
- exact: config_updateV.
- exact: analyzeV_config.
Qed.

Lemma for_each_inv S A (I : S -> Prop) (body : nat -> A -> M S A) :
  (forall i acc st, I st -> I (body i acc st).1) ->
  forall idxs acc st, I st -> I (for_each idxs acc body st).1.
Proof.
move=> keep; elim=> [|i idxs IH] acc st inv //=.
rewrite /bind; have := keep i acc st inv.
by case: (body i acc st) => [st1 [acc1|e]] //= /IH.
Qed.

Lemma analyze_stepV_history time_arr ac_x ac_y ac_z pitch position i acc
    (s : kalman_filter_velocity.t F) :
  kalman_filter_velocity.history_ok s ->
  kalman_filter_velocity.history_ok
    (kalman_filter_velocity.analyze_step np time_arr ac_x ac_y ac_z
       pitch position i acc s).1.
Proof.
move=> ok; rewrite /kalman_filter_velocity.analyze_step.
do 7![rewrite bindE_lift0; case: (getitem _ _) => [?|e]; last by []].
rewrite /bind; set u := kalman_filter_velocity.update _ _ _ _ _ _.
have : kalman_filter_velocity.history_ok u.1 by apply: history_ok_updateV.
by case: u => [s1 [v|e]].
Qed.

Lemma getitem_Ok (l : seq F) (i : nat) (v : F) :
  getitem l i = Ok v -> v = nth 0 l i.
Proof. by rewrite getitemE; case: ltnP => // _ [<-]. Qed.

(** X16.  A batch run does not put the filter back: after a run of the
    velocity filter that returns, over two timestamps or more, the object
    remembers the last sample of the dataset: its previous position is
    the last position read and the newest entry of its x history is the
    last x acceleration read. *)
Theorem velocity_analysis_end_state time_arr ac_x ac_y ac_z pitch position
    (s s' : kalman_filter_velocity.t F) speed_arr :
  (1 < size time_arr)%N ->
  kalman_filter_velocity.analyze_dataset np
    [:: time_arr; ac_x; ac_y; ac_z; pitch; position] s = (s', Ok speed_arr) ->
  kalman_filter_velocity.current_position s'
    = nth 0 position (size time_arr - 1)
  /\ last 0 (kalman_filter_velocity.ac_x s') = nth 0 ac_x (size time_arr - 1).
Proof.
move=> n2; rewrite analyzeVE /kalman_filter_velocity.kalman_pass bind_resetV.
have -> : iota 1 (size time_arr - 1)
          = iota 1 (size time_arr - 2) ++ [:: (size time_arr - 1)%N].
  case: (size time_arr) n2 => [|[|n]] // _.
  rewrite subn1 subn2 [n.+2.-1]/= [n.+2.-2]/= -(addn1 n) iotaD /= add1n.
  by rewrite addn1.
rewrite for_each_cat.
set body := kalman_filter_velocity.analyze_step _ _ _ _ _ _ _.
have := for_each_inv (I := @kalman_filter_velocity.history_ok F)
          (body := body)
          (fun i acc st ok => analyze_stepV_history _ _ _ _ _ _ i acc ok)
          (iota 1 (size time_arr - 2)) [:: 0]
          (history_ok_resetV s).
case: (for_each _ _ _ _) => [s1 [acc1|e]] //= ok1.
rewrite /bind /body /kalman_filter_velocity.analyze_step.
rewrite bindE_lift0; case: (getitem _ _) => [ti|e]; last by [].
rewrite bindE_lift0; case: (getitem _ _) => [tp|e]; last by [].
rewrite bindE_lift0; case Ex: (getitem ac_x _) => [ax|e]; last by [].
rewrite bindE_lift0; case: (getitem _ _) => [ay|e]; last by [].
rewrite bindE_lift0; case: (getitem _ _) => [az|e]; last by [].
rewrite bindE_lift0; case: (getitem _ _) => [p|e]; last by [].
rewrite bindE_lift0; case Ep: (getitem position _) => [pos|e]; last by [].
rewrite /bind.
have := updateV_position np s1 (ax, ay, az) p pos (ti - tp).
have [] := updateV_history np s1 (ax, ay, az) p pos (ti - tp).
case: (kalman_filter_velocity.update _ _ _ _ _ _)
  => [s2 [v|e]] //= hx _ _ hpos [<- _].
rewrite hx hpos // (getitem_Ok Ep) (getitem_Ok Ex); split=> //.
case/and3P: ok1 => /eqP sz _ _.
by case: (kalman_filter_velocity.ac_x s1) sz => [|h [|h2 [|h3 t]]].
Qed.

End Afterwards.

(** X16, the witness: a run over two samples. *)
Lemma velocity_analysis_end_state_witness :
  exists s' speed_arr,
    kalman_filter_velocity.analyze_dataset np_rat
      [:: [:: 0; 1]; [:: 0; 0]; [:: 0; 0]; [:: 1; 1]; [:: 0; 0]; [:: 0; 1]]
      (kalman_filter_velocity.init rat) = (s', Ok speed_arr)
    /\ kalman_filter_velocity.current_position s' = nth 0 [:: 0; 1] 1.
Proof.
have [s' [speed_arr E]] := two_samples_run.
exists s', speed_arr; split; first exact: E.
exact: (proj1 (velocity_analysis_end_state (time_arr := [:: 0; 1]) isT E)).
Defined.
